(** * Realtime canvas + note backend: room registry and session handlers

    A shallow embedding of [main.py] and [schemas.py].

    - JSON payloads are an inductive type; Python dicts received from the
      wire are association lists in insertion order.
    - Python floats are IEEE binary64 ([PrimFloat.float]).
    - The handlers run in a small state-and-exception monad over a [World]
      that holds the connection manager, the document store and the
      transport (which websockets fail on send, and the log of every send
      that was attempted).
    - The connection registry is a pair of [gmap string (list WebSocket)].
    - [broadcast_live] is the loop of [broadcast] with the other tasks that
      run while one of its sends is suspended; it follows the list object
      the loop runs over through their registrations and deregistrations.
*)

From Stdlib Require Import ZArith.
From Stdlib Require Import Floats.PrimFloat Floats.SpecFloat Floats.FloatOps.
From stdpp Require Import gmap strings list pretty.

Open Scope string_scope.
Open Scope list_scope.
Set Warnings "-register-all".

(* ===================================================================== *)
(** ** Python values *)

(** What [ws.receive_json()] yields: the result of [json.loads]. *)
Inductive JSON : Type :=
| JNull
| JBool (b : bool)
| JInt (z : Z)
| JFloat (f : float)
| JStr (s : string)
| JArr (items : list JSON)
| JObj (fields : list (string * JSON)).

(** A Python [dict] with string keys, in insertion order. *)
Abbreviation Dict := (list (string * JSON)).

(** [d.get(k)] *)
Fixpoint dict_get (k : string) (d : Dict) : option JSON :=
  match d with
  | [] => None
  | (k', v) :: d' => if decide (k' = k) then Some v else dict_get k d'
  end.

(** [d[k] = v]: overwrite in place, or append a new key. *)
Fixpoint dict_set (k : string) (v : JSON) (d : Dict) : Dict :=
  match d with
  | [] => [(k, v)]
  | (k', v') :: d' =>
      if decide (k' = k) then (k, v) :: d' else (k', v') :: dict_set k v d'
  end.

(** The parts of the Python runtime that are taken as given: how a string is
    read as a float (pydantic's lax mode on a [float] field), [repr] of a
    float (the shortest decimal that reads back as the same double) and
    [repr] of a string (quoting and escaping, which follow the Unicode
    tables). *)
Class PyRuntime := {
  float_of_str : string -> option float;
  float_repr : float -> string;
  str_repr : string -> string;
}.

(** [repr(v)] of a value that [json.loads] yields: the constants by name, an
    int in decimal, a list and a dict as Python displays them, from the
    [repr] of their items. *)
Fixpoint py_repr `{PyRuntime} (v : JSON) : string :=
  match v with
  | JNull => "None"
  | JBool true => "True"
  | JBool false => "False"
  | JInt z => pretty z
  | JFloat f => float_repr f
  | JStr s => str_repr s
  | JArr items => "[" +:+ String.concat ", " (map py_repr items) +:+ "]"
  | JObj fields =>
      "{" +:+
      String.concat ", "
        (map (fun kv => str_repr (fst kv) +:+ ": " +:+ py_repr (snd kv))
           fields) +:+
      "}"
  end.

(** [str(v)]: a string is itself, anything else is its [repr]. *)
Definition py_str `{PyRuntime} (v : JSON) : string :=
  match v with
  | JStr s => s
  | _ => py_repr v
  end.

(** [float(n)] for a Python int: round to nearest even; an int too large
    for a double has no float. *)
Definition float_of_int (z : Z) : option float :=
  let f := SF2Prim (binary_normalize prec emax z 0 false) in
  if is_infinity f then None else Some f.

(* ===================================================================== *)
(** ** Exceptions *)

Inductive ErrorKind :=
| missing | string_type | float_type | float_parsing
| greater_than_equal | less_than_equal | list_type | model_type.

Inductive LocItem := Key (name : string) | Idx (i : nat).

Record ErrorDetail := { err_loc : list LocItem; err_kind : ErrorKind }.

Inductive Exn :=
| ValidationError (errors : list ErrorDetail)
| TypeError
| RuntimeError
| StoreError
| JSONDecodeError
| KeyError
| WebSocketDisconnect.

(** [except WebSocketDisconnect] *)
Definition is_disconnect (e : Exn) : bool :=
  match e with WebSocketDisconnect => true | _ => false end.

(* ===================================================================== *)
(** ** schemas.py *)

Record CanvasPoint := { pt_x : float; pt_y : float }.

Record CanvasStroke := {
  stroke_color : string;
  stroke_size : float;
  stroke_points : list CanvasPoint;
}.

Record CanvasEvent := {
  ev_stroke : CanvasStroke;
  ev_user_id : option string;
  ev_room : string;
}.

(** The result of validating one field: the errors found, or the value. *)
Abbreviation Validated A := (list ErrorDetail + A)%type.

Definition invalid {A} (loc : list LocItem) (k : ErrorKind) : Validated A :=
  inl [{| err_loc := loc; err_kind := k |}].

Definition errors_of {A} (v : Validated A) : list ErrorDetail :=
  match v with inl es => es | inr _ => [] end.

(** A [str] field. *)
Definition validate_str (loc : list LocItem) (v : JSON) : Validated string :=
  match v with
  | JStr s => inr s
  | _ => invalid loc string_type
  end.

(** A [float] field (lax mode: ints, bools and numeric strings convert). *)
Definition validate_float `{PyRuntime} (loc : list LocItem) (v : JSON)
  : Validated float :=
  match v with
  | JFloat f => inr f
  | JInt z =>
      match float_of_int z with
      | Some f => inr f
      | None => invalid loc float_type
      end
  | JBool b => inr (if b then 1%float else 0%float)
  | JStr s =>
      match float_of_str s with
      | Some f => inr f
      | None => invalid loc float_parsing
      end
  | _ => invalid loc float_type
  end.

(** [Field(..., ge=lo, le=hi)]: the upper bound is tested first, then the
    lower one; a NaN fails the first test. *)
Definition check_range (loc : list LocItem) (lo hi : float) (f : float)
  : Validated float :=
  if negb (PrimFloat.leb f hi) then invalid loc less_than_equal
  else if negb (PrimFloat.leb lo f) then invalid loc greater_than_equal
  else inr f.

(** [class CanvasPoint(BaseModel): x: float; y: float] *)
Definition CanvasPoint_validate `{PyRuntime} (loc : list LocItem) (v : JSON)
  : Validated CanvasPoint :=
  match v with
  | JObj d =>
      let vx := match dict_get "x" d with
                | Some a => validate_float (loc ++ [Key "x"]) a
                | None => invalid (loc ++ [Key "x"]) missing
                end in
      let vy := match dict_get "y" d with
                | Some a => validate_float (loc ++ [Key "y"]) a
                | None => invalid (loc ++ [Key "y"]) missing
                end in
      match vx, vy with
      | inr a, inr b => inr {| pt_x := a; pt_y := b |}
      | _, _ => inl (errors_of vx ++ errors_of vy)
      end
  | _ => invalid loc model_type
  end.

(** The items of a [List[CanvasPoint]], from index [i]. *)
Fixpoint validate_points `{PyRuntime} (loc : list LocItem) (i : nat)
    (items : list JSON) : Validated (list CanvasPoint) :=
  match items with
  | [] => inr []
  | v :: rest =>
      let vh := CanvasPoint_validate (loc ++ [Idx i]) v in
      let vt := validate_points loc (S i) rest in
      match vh, vt with
      | inr p, inr ps => inr (p :: ps)
      | _, _ => inl (errors_of vh ++ errors_of vt)
      end
  end.

Definition validate_point_list `{PyRuntime} (loc : list LocItem) (v : JSON)
  : Validated (list CanvasPoint) :=
  match v with
  | JArr items => validate_points loc 0 items
  | _ => invalid loc list_type
  end.

(** [[
class CanvasStroke(BaseModel):
    color: str = Field("#ffffff")
    size: float = Field(2.0, ge=0.5, le=50)
    points: List[CanvasPoint] = Field(default_factory=list)
]] *)
Definition CanvasStroke_validate `{PyRuntime} (loc : list LocItem) (v : JSON)
  : Validated CanvasStroke :=
  match v with
  | JObj d =>
      let vc := match dict_get "color" d with
                | Some a => validate_str (loc ++ [Key "color"]) a
                | None => inr "#ffffff"
                end in
      let vs := match dict_get "size" d with
                | Some a =>
                    match validate_float (loc ++ [Key "size"]) a with
                    | inr f => check_range (loc ++ [Key "size"]) 0.5 50 f
                    | inl es => inl es
                    end
                | None => inr 2.0%float
                end in
      let vp := match dict_get "points" d with
                | Some a => validate_point_list (loc ++ [Key "points"]) a
                | None => inr []
                end in
      match vc, vs, vp with
      | inr c, inr s, inr ps =>
          inr {| stroke_color := c; stroke_size := s; stroke_points := ps |}
      | _, _, _ => inl (errors_of vc ++ errors_of vs ++ errors_of vp)
      end
  | _ => invalid loc model_type
  end.

(** An [Optional[str]] field. *)
Definition validate_optional_str (loc : list LocItem) (v : JSON)
  : Validated (option string) :=
  match v with
  | JNull => inr None
  | _ => match validate_str loc v with
         | inr s => inr (Some s)
         | inl es => inl es
         end
  end.

(** [[
class CanvasEvent(BaseModel):
    stroke: CanvasStroke
    user_id: Optional[str] = Field(None)
    room: str = Field("global")
]]
    Keys that are not fields of the model are ignored. *)
Definition CanvasEvent_validate `{PyRuntime} (kwargs : Dict)
  : Validated CanvasEvent :=
  let vs := match dict_get "stroke" kwargs with
            | Some a => CanvasStroke_validate [Key "stroke"] a
            | None => invalid [Key "stroke"] missing
            end in
  let vu := match dict_get "user_id" kwargs with
            | Some a => validate_optional_str [Key "user_id"] a
            | None => inr None
            end in
  let vr := match dict_get "room" kwargs with
            | Some a => validate_str [Key "room"] a
            | None => inr "global"
            end in
  match vs, vu, vr with
  | inr s, inr u, inr r =>
      inr {| ev_stroke := s; ev_user_id := u; ev_room := r |}
  | _, _, _ => inl (errors_of vs ++ errors_of vu ++ errors_of vr)
  end.

(** The result of a computation that can raise. *)
Inductive Result (A : Type) :=
| Ok (a : A)
| Raise (e : Exn).
Arguments Ok {A} a.
Arguments Raise {A} e.

(** The constructor call of [ws_canvas]: the received mapping, with its
    [room] key set to the connection's room, unpacked as the keyword
    arguments of [CanvasEvent]. Unpacking a value that is not a mapping is
    a [TypeError]; a failed validation is a [ValidationError]. *)
Definition canvas_event_of `{PyRuntime} (data : JSON) (room : string)
  : Result CanvasEvent :=
  match data with
  | JObj d =>
      match CanvasEvent_validate (dict_set "room" (JStr room) d) with
      | inr ev => Ok ev
      | inl es => Raise (ValidationError es)
      end
  | _ => Raise TypeError
  end.

(* ===================================================================== *)
(** ** The document store *)

(** A stored canvas event: the event's fields, and what the store attaches
    to a document. *)
Record EventDoc := {
  doc_id : option nat;
  doc_created_at : option nat;
  doc_updated_at : option nat;
  doc_event : CanvasEvent;
}.

(** A stored note. *)
Record NoteDoc := {
  note_room : string;
  note_content : option string;
}.

Record Store := {
  canvasevent : list EventDoc;
  note : list NoteDoc;
  available : bool;
  clock : nat;
}.

(** Modelled from the spec: [create_document] of the [database] module,
    which is not among the sources. It is the Store Adapter's
    [insert(collectionKind, document)]: the document is appended to its
    collection (the log of a room is append-only), and the call fails with
    a [StoreError] when the store cannot be reached. The identifier and the
    two timestamps that [get_canvas_events] converts are attached here. *)
Definition create_document (collection : string) (data : CanvasEvent)
    (s : Store) : Result Store :=
  if negb (available s) then Raise StoreError
  else if decide (collection = "canvasevent") then
    Ok {| canvasevent :=
            canvasevent s ++
              [{| doc_id := Some (clock s);
                  doc_created_at := Some (clock s);
                  doc_updated_at := Some (clock s);
                  doc_event := data |}];
          note := note s;
          available := available s;
          clock := S (clock s) |}
  else Ok s.

(** Modelled from the spec: [get_documents] of the [database] module, which
    is not among the sources. It is the Store Adapter's
    [find(collectionKind, filter, limit)] with a filter on [room]: up to
    [limit] documents of the room, the most recent ones, in store (that is,
    insertion) order. *)
Definition get_documents (collection : string) (room : string) (limit : nat)
    (s : Store) : Result (list EventDoc) :=
  if negb (available s) then Raise StoreError
  else if decide (collection = "canvasevent") then
    let found :=
      filter (fun d => ev_room (doc_event d) = room) (canvasevent s) in
    Ok (drop (length found - limit) found)
  else Ok [].

(** Modelled from the spec: [db["note"].find_one] with a filter on [room],
    the Store Adapter's [findOne(collectionKind, filter)]: the first note
    document of the room, if there is one. *)
Definition note_find_one (room : string) (s : Store)
  : Result (option NoteDoc) :=
  if negb (available s) then Raise StoreError
  else Ok (head (filter (fun d => note_room d = room) (note s))).

(** Set the content of the first note document of [room]. *)
Fixpoint set_first_content (room content : string) (docs : list NoteDoc)
  : list NoteDoc :=
  match docs with
  | [] => []
  | d :: rest =>
      if decide (note_room d = room)
      then {| note_room := note_room d; note_content := Some content |} :: rest
      else d :: set_first_content room content rest
  end.

(** Modelled from the spec: [db["note"].update_one] with a filter on [room],
    a [$set] of [content] and [upsert=True], the Store Adapter's
    [upsert(collectionKind, filter, newFields)]: the note of the room is
    created on the first write and its content replaced on each later
    one. *)
Definition note_update_one (room content : string) (s : Store)
  : Result Store :=
  if negb (available s) then Raise StoreError
  else
    let docs :=
      match head (filter (fun d => note_room d = room) (note s)) with
      | Some _ => set_first_content room content (note s)
      | None =>
          note s ++ [{| note_room := room; note_content := Some content |}]
      end in
    Ok {| canvasevent := canvasevent s;
          note := docs;
          available := available s;
          clock := clock s |}.

(* ===================================================================== *)
(** ** The transport and the connection registry *)

(** A [WebSocket] object, by identity. *)
Abbreviation WebSocket := nat.

(** The JSON objects the server sends. *)
Inductive Message :=
| MStroke (data : CanvasEvent)   (* type "stroke", data: event.model_dump() *)
| MErrorOf (e : Exn)             (* type "error", message: str(e) *)
| MError (message : string)      (* type "error", message: a literal *)
| MInit (content : string)       (* type "init" *)
| MUpdate (content : string).    (* type "update" *)

(** One call of [ws.send_json]: to whom, what, and whether it went out. *)
Record Attempt := {
  att_to : WebSocket;
  att_payload : Message;
  att_delivered : bool;
}.

(** The transport: the websockets on which [accept] and [send_json] raise
    (with the exception they raise), and every send attempted so far. *)
Record Net := {
  failing : gmap WebSocket Exn;
  sends : list Attempt;
}.

(** [[
class ConnectionManager:
    def __init__(self):
        self.canvas_rooms: Dict[str, List[WebSocket]] = {}
        self.note_rooms: Dict[str, List[WebSocket]] = {}
]] *)
Record ConnectionManager := {
  canvas_rooms : gmap string (list WebSocket);
  note_rooms : gmap string (list WebSocket);
}.

Definition ConnectionManager_init : ConnectionManager :=
  {| canvas_rooms := ∅; note_rooms := ∅ |}.

(** [self.canvas_rooms if kind == "canvas" else self.note_rooms] *)
Definition _get_rooms (kind : string) (cm : ConnectionManager)
  : gmap string (list WebSocket) :=
  if decide (kind = "canvas") then canvas_rooms cm else note_rooms cm.

(** [rooms] is an alias of one of the two dicts of the manager: a change
    made through it is a change of that dict. *)
Definition set_rooms (kind : string) (rooms : gmap string (list WebSocket))
    (cm : ConnectionManager) : ConnectionManager :=
  if decide (kind = "canvas")
  then {| canvas_rooms := rooms; note_rooms := note_rooms cm |}
  else {| canvas_rooms := canvas_rooms cm; note_rooms := rooms |}.

(** The registration of [connect], after the websocket was accepted:
[[
        rooms.setdefault(room, [])
        rooms[room].append(ws)
]] *)
Definition register (ws : WebSocket) (room kind : string)
    (cm : ConnectionManager) : ConnectionManager :=
  let rooms := _get_rooms kind cm in
  let rooms :=
    match rooms !! room with
    | Some _ => rooms
    | None => <[room := []]> rooms
    end in
  let rooms := alter (fun bucket => bucket ++ [ws]) room rooms in
  set_rooms kind rooms cm.

(** [list.remove(x)]: the first occurrence goes. *)
Fixpoint remove_first (x : WebSocket) (l : list WebSocket) : list WebSocket :=
  match l with
  | [] => []
  | y :: l' => if decide (y = x) then l' else y :: remove_first x l'
  end.

(** [[
    def disconnect(self, ws, room, kind):
        rooms = self._get_rooms(kind)
        if room in rooms and ws in rooms[room]:
            rooms[room].remove(ws)
            if not rooms[room]:
                rooms.pop(room, None)
]] *)
Definition disconnect (ws : WebSocket) (room kind : string)
    (cm : ConnectionManager) : ConnectionManager :=
  let rooms := _get_rooms kind cm in
  match rooms !! room with
  | Some bucket =>
      if decide (ws ∈ bucket) then
        let rooms := <[room := remove_first ws bucket]> rooms in
        match rooms !! room with
        | Some [] => set_rooms kind (delete room rooms) cm
        | _ => set_rooms kind rooms cm
        end
      else cm
  | None => cm
  end.

(* ===================================================================== *)
(** ** The world and the handlers' monad *)

Record World := {
  manager : ConnectionManager;
  db : Store;
  net : Net;
}.

(** How a coroutine stands: it returned, it raised, or it is suspended in
    [receive_json] with nothing left to read. *)
Inductive Outcome (A : Type) :=
| Done (a : A)
| Raised (e : Exn)
| Pending.
Arguments Done {A} a.
Arguments Raised {A} e.
Arguments Pending {A}.

(** State is kept when an exception is raised: what was written before the
    raise stays written. *)
Definition M (A : Type) : Type := World -> Outcome A * World.

Definition ret {A} (a : A) : M A := fun w => (Done a, w).

Definition raise {A} (e : Exn) : M A := fun w => (Raised e, w).

Definition pending {A} : M A := fun w => (Pending, w).

Definition bind {A B} (m : M A) (k : A -> M B) : M B :=
  fun w =>
    match m w with
    | (Done a, w') => k a w'
    | (Raised e, w') => (Raised e, w')
    | (Pending, w') => (Pending, w')
    end.

Notation "x <- m ;; k" := (bind m (fun x => k))
  (at level 100, m at next level, right associativity).
Notation "m ;; k" := (bind m (fun _ => k))
  (at level 100, right associativity).

(** [try: body  except Exception as e: handler(e)] *)
Definition try_except {A} (body : M A) (handler : Exn -> M A) : M A :=
  fun w =>
    match body w with
    | (Raised e, w') => handler e w'
    | r => r
    end.

(** [try: body  except WebSocketDisconnect: handler] *)
Definition try_except_disconnect {A} (body : M A) (handler : M A) : M A :=
  fun w =>
    match body w with
    | (Raised e, w') =>
        if is_disconnect e then handler w' else (Raised e, w')
    | r => r
    end.

(** [for x in l: body(x)] *)
Fixpoint for_each {A} (l : list A) (body : A -> M unit) : M unit :=
  match l with
  | [] => ret tt
  | x :: l' => body x ;; for_each l' body
  end.

(** A pure computation that can raise. *)
Definition lift {A} (r : Result A) : M A :=
  match r with
  | Ok a => ret a
  | Raise e => raise e
  end.

(** A call into the store. *)
Definition store_call (f : Store -> Result Store) : M unit :=
  fun w =>
    match f (db w) with
    | Ok s => (Done tt, {| manager := manager w; db := s; net := net w |})
    | Raise e => (Raised e, w)
    end.

Definition store_query {A} (f : Store -> Result A) : M A :=
  fun w =>
    match f (db w) with
    | Ok a => (Done a, w)
    | Raise e => (Raised e, w)
    end.

(** A method of the manager that changes its dicts. *)
Definition on_manager (f : ConnectionManager -> ConnectionManager) : M unit :=
  fun w =>
    (Done tt, {| manager := f (manager w); db := db w; net := net w |}).

(** [await ws.accept()] *)
Definition accept (ws : WebSocket) : M unit :=
  fun w =>
    match failing (net w) !! ws with
    | Some e => (Raised e, w)
    | None => (Done tt, w)
    end.

Definition log_send (a : Attempt) (w : World) : World :=
  {| manager := manager w;
     db := db w;
     net := {| failing := failing (net w); sends := sends (net w) ++ [a] |} |}.

(** [await ws.send_json(message)] *)
Definition send_json (ws : WebSocket) (message : Message) : M unit :=
  fun w =>
    match failing (net w) !! ws with
    | Some e =>
        (Raised e,
         log_send {| att_to := ws; att_payload := message;
                     att_delivered := false |} w)
    | None =>
        (Done tt,
         log_send {| att_to := ws; att_payload := message;
                     att_delivered := true |} w)
    end.

(** [[
    async def connect(self, ws, room, kind):
        await ws.accept()
        rooms = self.canvas_rooms if kind == "canvas" else self.note_rooms
        rooms.setdefault(room, [])
        rooms[room].append(ws)
]] *)
Definition connect (ws : WebSocket) (room kind : string) : M unit :=
  accept ws ;;
  on_manager (register ws room kind).

(** [[
    async def broadcast(self, message, room, kind):
        rooms = self._get_rooms(kind)
        for ws in rooms.get(room, []):
            try:
                await ws.send_json(message)
            except Exception:
                pass
]]
    run from its first send to its last with no other task scheduled in
    between. [broadcast_live] below is the loop with other tasks running
    while a send is suspended. *)
Definition broadcast (message : Message) (room kind : string) : M unit :=
  fun w =>
    let rooms := _get_rooms kind (manager w) in
    for_each (default [] (rooms !! room))
      (fun ws => try_except (send_json ws message) (fun _ => ret tt)) w.

(** [await ws.send_json(message)] suspends [broadcast], and other handlers
    run until it goes on. What they do that [broadcast] can see: a handler
    registers its websocket, a handler deregisters its websocket, a peer
    goes away, after which a send to its websocket raises. *)
Inductive Other :=
| OtherConnects (ws : WebSocket) (room kind : string)
| OtherDisconnects (ws : WebSocket) (room kind : string)
| OtherCloses (ws : WebSocket) (e : Exn).

Definition run_other (o : Other) (w : World) : World :=
  match o with
  | OtherConnects ws room kind =>
      {| manager := register ws room kind (manager w);
         db := db w; net := net w |}
  | OtherDisconnects ws room kind =>
      {| manager := disconnect ws room kind (manager w);
         db := db w; net := net w |}
  | OtherCloses ws e =>
      {| manager := manager w;
         db := db w;
         net := {| failing := <[ws := e]> (failing (net w));
                   sends := sends (net w) |} |}
  end.

(** The list that the [for] of [broadcast] runs over is the list object
    that [rooms.get(room, [])] returned: the list of the room in the dict,
    or a new empty list when the room has none. [connect] appends to the
    list of the room and [disconnect] removes from it, both in place, so
    the loop sees it. When [disconnect] pops the room, the list is empty and
    no longer the room's: a later [connect] makes a new list, which the loop
    does not see. *)
Record Iterated := {
  it_items : list WebSocket;
  it_in_dict : bool;
}.

Definition iterated (room kind : string) (cm : ConnectionManager)
  : Iterated :=
  match _get_rooms kind cm !! room with
  | Some bucket => {| it_items := bucket; it_in_dict := true |}
  | None => {| it_items := []; it_in_dict := false |}
  end.

(** The list object after a step of another task that left the registry as
    [cm]. *)
Definition iterated_after (room kind : string) (cm : ConnectionManager)
    (it : Iterated) : Iterated :=
  if it_in_dict it then iterated room kind cm else it.

(** What other tasks do during one suspension, step by step. *)
Fixpoint run_others (room kind : string) (during : list Other) (w : World)
    (it : Iterated) : World * Iterated :=
  match during with
  | [] => (w, it)
  | o :: during' =>
      let w' := run_other o w in
      run_others room kind during' w'
        (iterated_after room kind (manager w') it)
  end.

(** The loop of [broadcast] at position [i] of the list it runs over.
    [others] holds what other tasks do during each of the next sends; once
    it is used up no other task runs during a send. The iterator of a
    Python list holds a position: the next item is the one at that position
    of the list as it is then, and the loop ends when there is none. *)
Fixpoint broadcast_from (message : Message) (room kind : string)
    (others : list (list Other)) (i : nat) (it : Iterated) : M unit :=
  match others with
  | [] =>
      for_each (drop i (it_items it))
        (fun ws => try_except (send_json ws message) (fun _ => ret tt))
  | during :: others' =>
      match it_items it !! i with
      | None => ret tt
      | Some ws =>
          try_except (send_json ws message) (fun _ => ret tt) ;;
          (fun w =>
             let (w', it') := run_others room kind during w it in
             broadcast_from message room kind others' (S i) it' w')
      end
  end.

(** [broadcast], with [others] for what other tasks do during its sends. *)
Definition broadcast_live (message : Message) (room kind : string)
    (others : list (list Other)) : M unit :=
  fun w =>
    broadcast_from message room kind others 0
      (iterated room kind (manager w)) w.

(** [manager = ConnectionManager()] *)
Definition initial_manager : ConnectionManager := ConnectionManager_init.

(* ===================================================================== *)
(** ** The session handlers *)

(** What arrives on a connection: a text frame that holds JSON; a frame on
    which [receive_json] raises ([JSONDecodeError] for a text that is not
    JSON, [KeyError] for a binary frame); or the closure of the connection,
    on which [receive_json] raises [WebSocketDisconnect]. *)
Inductive Inbound :=
| Recv (data : JSON)
| Broken (e : Exn)
| Disconnect.

(** [[
        while True:
            data = await ws.receive_json()
            body(data)
]]
    over what has arrived so far; with nothing left to read the coroutine
    stays suspended in [receive_json]. *)
Fixpoint while_receiving (body : JSON -> M unit) (inbox : list Inbound)
  : M unit :=
  match inbox with
  | [] => pending
  | Disconnect :: _ => raise WebSocketDisconnect
  | Broken e :: _ => raise e
  | Recv data :: rest => body data ;; while_receiving body rest
  end.

Section Handlers.
Context `{PyRuntime}.

(** The body of the loop of [ws_canvas]:
[[
            try:
                event = CanvasEvent( **{ **data, "room": room})
                create_document("canvasevent", event)
                await manager.broadcast(
                    {"type": "stroke", "data": event.model_dump()},
                    room, "canvas")
            except Exception as e:
                await ws.send_json({"type": "error", "message": str(e)})
]] *)
Definition canvas_on_message (ws : WebSocket) (room : string) (data : JSON)
  : M unit :=
  try_except
    (event <- lift (canvas_event_of data room) ;;
     store_call (create_document "canvasevent" event) ;;
     broadcast (MStroke event) room "canvas")
    (fun e => send_json ws (MErrorOf e)).

(** The same body, with [others] for what other tasks do during the sends
    of its broadcast. *)
Definition canvas_on_message_live (ws : WebSocket) (room : string)
    (data : JSON) (others : list (list Other)) : M unit :=
  try_except
    (event <- lift (canvas_event_of data room) ;;
     store_call (create_document "canvasevent" event) ;;
     broadcast_live (MStroke event) room "canvas" others)
    (fun e => send_json ws (MErrorOf e)).

(** [[
async def ws_canvas(ws, room):
    await manager.connect(ws, room, "canvas")
    try:
        while True: ...
    except WebSocketDisconnect:
        manager.disconnect(ws, room, "canvas")
]] *)
Definition ws_canvas (ws : WebSocket) (room : string) (inbox : list Inbound)
  : M unit :=
  connect ws room "canvas" ;;
  try_except_disconnect
    (while_receiving (canvas_on_message ws room) inbox)
    (on_manager (disconnect ws room "canvas")).

(** [isinstance(data, dict) and data.get("type") == "update"] *)
Definition is_update (data : JSON) : bool :=
  match data with
  | JObj d =>
      match dict_get "type" d with
      | Some (JStr t) => bool_decide (t = "update")
      | _ => false
      end
  | _ => false
  end.

(** [data.get(key, "")] on a value known to be a dict. *)
Definition get_or_empty (key : string) (data : JSON) : JSON :=
  match data with
  | JObj d => default (JStr "") (dict_get key d)
  | _ => JStr ""
  end.

(** The body of the loop of [ws_note]:
[[
            if isinstance(data, dict) and data.get("type") == "update":
                content = str(data.get("content", ""))
                db["note"].update_one({"room": room},
                    {"$set": {"content": content}}, upsert=True)
                await manager.broadcast(
                    {"type": "update", "content": content}, room, "note")
            else:
                await ws.send_json(
                    {"type": "error", "message": "Invalid payload"})
]] *)
Definition note_on_message (ws : WebSocket) (room : string) (data : JSON)
  : M unit :=
  if is_update data then
    let content := py_str (get_or_empty "content" data) in
    store_call (note_update_one room content) ;;
    broadcast (MUpdate content) room "note"
  else
    send_json ws (MError "Invalid payload").

(** The same body, with [others] for what other tasks do during the sends
    of its broadcast. *)
Definition note_on_message_live (ws : WebSocket) (room : string)
    (data : JSON) (others : list (list Other)) : M unit :=
  if is_update data then
    let content := py_str (get_or_empty "content" data) in
    store_call (note_update_one room content) ;;
    broadcast_live (MUpdate content) room "note" others
  else
    send_json ws (MError "Invalid payload").

(** [current.get("content", "")] where [current] is the note found for the
    room, or the dict with the empty content when there is none. *)
Definition current_content (found : option NoteDoc) : string :=
  match found with
  | Some doc => default "" (note_content doc)
  | None => ""
  end.

(** [[
async def ws_note(ws, room):
    await manager.connect(ws, room, "note")
    current = db["note"].find_one({"room": room}) or {"content": ""}
    try:
        await ws.send_json(
            {"type": "init", "content": current.get("content", "")})
        while True: ...
    except WebSocketDisconnect:
        manager.disconnect(ws, room, "note")
]] *)
Definition ws_note (ws : WebSocket) (room : string) (inbox : list Inbound)
  : M unit :=
  connect ws room "note" ;;
  current <- store_query (note_find_one room) ;;
  try_except_disconnect
    (send_json ws (MInit (current_content current)) ;;
     while_receiving (note_on_message ws room) inbox)
    (on_manager (disconnect ws room "note")).

End Handlers.

(* ===================================================================== *)
(** ** The HTTP query surface *)

(** An event as [get_canvas_events] returns it: the identifier and the
    timestamps converted with [str]. *)
Record EventView := {
  view_id : string;
  view_created_at : option string;
  view_updated_at : option string;
  view_event : CanvasEvent;
}.

(** [str] of an identifier or a timestamp of the store. *)
Definition str_nat (n : nat) : string := pretty n.

(** [[
    for e in events:
        e["_id"] = str(e.get("_id"))
        if "created_at" in e: e["created_at"] = str(e["created_at"])
        if "updated_at" in e: e["updated_at"] = str(e["updated_at"])
]] *)
Definition convert_event (e : EventDoc) : EventView :=
  {| view_id := match doc_id e with Some i => str_nat i | None => "None" end;
     view_created_at := str_nat <$> doc_created_at e;
     view_updated_at := str_nat <$> doc_updated_at e;
     view_event := doc_event e |}.

(** [[
@app.get("/api/canvas/{room}")
def get_canvas_events(room):
    events = get_documents("canvasevent", {"room": room}, limit=500)
    ...
    return {"events": events}
]] *)
Definition get_canvas_events (room : string) : M (list EventView) :=
  events <- store_query (get_documents "canvasevent" room 500) ;;
  ret (convert_event <$> events).

(** [[
@app.get("/api/note/{room}")
def get_note(room):
    doc = db["note"].find_one({"room": room})
    if not doc: return {"content": "", "room": room}
    return {"content": doc.get("content", ""), "room": room}
]] *)
Definition get_note (room : string) : M (string * string) :=
  doc <- store_query (note_find_one room) ;;
  match doc with
  | None => ret ("", room)
  | Some d => ret (default "" (note_content d), room)
  end.

(** [[
@app.put("/api/note/{room}")
def put_note(room, payload):
    db["note"].update_one({"room": room},
        {"$set": {"content": payload.content}}, upsert=True)
    return {"status": "ok"}
]] *)
Definition put_note (room : string) (content : string) : M string :=
  store_call (note_update_one room content) ;;
  ret "ok".

(* ===================================================================== *)
(** ** Sessions running side by side *)

(** The two websocket endpoints. *)
Inductive Channel := Canvas | Notes.

Definition kind_of (c : Channel) : string :=
  match c with Canvas => "canvas" | Notes => "note" end.

(** A session: the endpoint and the room of its path, and whether its
    handler is still in its loop. *)
Record Session := {
  s_channel : Channel;
  s_room : string;
  s_live : bool;
}.

(** The process: the shared world, and the sessions started so far, each
    under the [WebSocket] object the framework created for it. *)
Record System := {
  world : World;
  sessions : gmap WebSocket Session;
}.

Definition is_pending {A} (o : Outcome A) : bool :=
  match o with Pending => true | _ => false end.

Section Interleaving.
Context `{PyRuntime}.

(** The handler of an endpoint. *)
Definition handler (c : Channel)
  : WebSocket -> string -> list Inbound -> M unit :=
  match c with Canvas => ws_canvas | Notes => ws_note end.

(** A handler suspended in [receive_json], taken up again with what has
    arrived since: its loop, inside its [try]. *)
Definition resume (c : Channel) (ws : WebSocket) (room : string)
    (inbox : list Inbound) : M unit :=
  match c with
  | Canvas =>
      try_except_disconnect
        (while_receiving (canvas_on_message ws room) inbox)
        (on_manager (disconnect ws room "canvas"))
  | Notes =>
      try_except_disconnect
        (while_receiving (note_on_message ws room) inbox)
        (on_manager (disconnect ws room "note"))
  end.

(** One step of the process: a connection is opened on a fresh websocket
    and its handler runs up to its first [receive_json]; something arrives
    on a live connection and its handler runs up to the next
    [receive_json]; or the world around the registry changes (a request on
    the HTTP surface, a peer that goes away, a store outage).

    A handler is suspended inside its sends as well. [connect] after its
    [accept] and [disconnect] have no suspension point inside, so what
    other tasks do during a send changes neither the registrations nor the
    sessions that the steps below produce: for the registry these steps are
    all there is. Which sends a broadcast makes while other tasks run
    during it is the subject of [broadcast_live]. *)
Inductive step : System -> System -> Prop :=
| step_open c ws room sys o w' :
    sessions sys !! ws = None ->
    handler c ws room [] (world sys) = (o, w') ->
    step sys
      {| world := w';
         sessions :=
           <[ws := {| s_channel := c; s_room := room;
                      s_live := is_pending o |}]> (sessions sys) |}
| step_deliver ws s i sys o w' :
    sessions sys !! ws = Some s ->
    s_live s = true ->
    resume (s_channel s) ws (s_room s) [i] (world sys) = (o, w') ->
    step sys
      {| world := w';
         sessions :=
           <[ws := {| s_channel := s_channel s; s_room := s_room s;
                      s_live := is_pending o |}]> (sessions sys) |}
| step_env sys w' :
    manager w' = manager (world sys) ->
    step sys {| world := w'; sessions := sessions sys |}.

(** The process starts with the empty registry and no session. *)
Definition initial (sys : System) : Prop :=
  manager (world sys) = ConnectionManager_init /\ sessions sys = ∅.

Inductive reachable : System -> Prop :=
| reachable_initial sys : initial sys -> reachable sys
| reachable_step sys sys' : reachable sys -> step sys sys' -> reachable sys'.

End Interleaving.

(** The buckets a websocket is in, for one kind: the rooms of the dict
    whose list has it. *)
Definition in_bucket (cm : ConnectionManager) (kind room : string)
    (ws : WebSocket) : Prop :=
  exists bucket, _get_rooms kind cm !! room = Some bucket /\ ws ∈ bucket.

(** How often a websocket is in a list. *)
Definition occurrences (ws : WebSocket) (bucket : list WebSocket) : nat :=
  length (filter (fun x => x = ws) bucket).

(** Deregistering one websocket after the other. *)
Definition disconnect_all (members : list WebSocket) (room kind : string)
    (cm : ConnectionManager) : ConnectionManager :=
  foldl (fun cm ws => disconnect ws room kind cm) cm members.

(** The number that a string of decimal digits writes, after [acc]. *)
Fixpoint digits_value (acc : Z) (s : string) : option Z :=
  match s with
  | "" => Some acc
  | String c s' =>
      let n := Z.of_nat (Ascii.nat_of_ascii c) in
      if bool_decide (48 <= n <= 57)%Z
      then digits_value (10 * acc + (n - 48))%Z s'
      else None
  end.

(** The integer that a float is, when it is one. *)
Definition integral_value (f : float) : option Z :=
  match Prim2SF f with
  | S754_zero false => Some 0%Z
  | S754_finite sign m e =>
      let m := if sign then Z.neg m else Z.pos m in
      if bool_decide (0 <= e)%Z then Some (m * 2 ^ e)%Z
      else if bool_decide (m mod 2 ^ (- e) = 0)%Z
           then Some (m / 2 ^ (- e))%Z
           else None
  | _ => None
  end.

(** A runtime to evaluate the examples with. It is the Python runtime on
    what the examples contain and no further: a string reads as a float when
    it is a plain numeral of decimal digits; a float is displayed when it is
    an integer below [1e16] in size; a string is displayed between single
    quotes, which is its [repr] when it has no quote, no backslash and no
    character to escape. *)
Definition example_runtime : PyRuntime :=
  {| float_of_str := fun s =>
       match s with
       | "" => None
       | _ => z ← digits_value 0 s; float_of_int z
       end;
     float_repr := fun f =>
       match integral_value f with
       | Some z =>
           if bool_decide (Z.abs z < 10 ^ 16)%Z then pretty z +:+ ".0"
           else "?"
       | None => "?"
       end;
     str_repr := fun s => "'" +:+ s +:+ "'" |}.

(** The attempt that [send_json] logs in world [w]. *)
Definition attempt (w : World) (message : Message) (ws : WebSocket)
  : Attempt :=
  {| att_to := ws; att_payload := message;
     att_delivered := bool_decide (failing (net w) !! ws = None) |}.

(** The world after some more sends were logged. *)
Definition log_sends (l : list Attempt) (w : World) : World :=
  {| manager := manager w;
     db := db w;
     net := {| failing := failing (net w); sends := sends (net w) ++ l |} |}.

(** The members of a bucket; a room without entry has none. *)
Definition members (cm : ConnectionManager) (kind room : string)
  : list WebSocket :=
  default [] (_get_rooms kind cm !! room).

(** Two kinds that name the same dict of the manager. *)
Definition same_dict (kind kind' : string) : Prop :=
  kind = "canvas" <-> kind' = "canvas".

(** A step of another task that leaves the bucket of a room and kind as it
    is: it registers or deregisters elsewhere, or it is a peer going away. *)
Definition leaves_bucket (room kind : string) (o : Other) : Prop :=
  match o with
  | OtherConnects _ room' kind' | OtherDisconnects _ room' kind' =>
      room' ≠ room \/ ¬ same_dict kind' kind
  | OtherCloses _ _ => True
  end.

(** A computation that leaves the registry as it found it. *)
Definition keeps_manager {A} (m : M A) : Prop :=
  forall w, manager (m w).2 = manager w.

(** What was sent to one websocket, in order. *)
Definition sent_to (ws : WebSocket) (w : World) : list Attempt :=
  filter (fun a => att_to a = ws) (sends (net w)).

(** A registry agrees with a table of sessions: a bucket has no websocket
    twice, and each of its websockets belongs to a session of that room
    and of that channel. *)
Definition agrees (cm : ConnectionManager) (ss : gmap WebSocket Session)
  : Prop :=
  forall kind room bucket,
    _get_rooms kind cm !! room = Some bucket ->
    NoDup bucket /\
    forall ws, ws ∈ bucket ->
      exists s, ss !! ws = Some s /\
                s_room s = room /\
                same_dict kind (kind_of (s_channel s)).

Definition registry_inv (sys : System) : Prop :=
  agrees (manager (world sys)) (sessions sys).

(** A store that is up and holds nothing, and the world around it. *)
Definition empty_store : Store :=
  {| canvasevent := []; note := []; available := true; clock := 0 |}.

Definition empty_world : World :=
  {| manager := ConnectionManager_init;
     db := empty_store;
     net := {| failing := ∅; sends := [] |} |}.

(** A computation that only adds to the log of sends. *)
Definition appends {A} (m : M A) : Prop :=
  forall w, exists l, sends (net (m w).2) = sends (net w) ++ l.

(** The document that [create_document] stores for an event. *)
Definition stored (s : Store) (ev : CanvasEvent) : EventDoc :=
  {| doc_id := Some (clock s);
     doc_created_at := Some (clock s);
     doc_updated_at := Some (clock s);
     doc_event := ev |}.

(** A computation that does not wait for input: it returns or raises. *)
Definition settles {A} (m : M A) : Prop :=
  forall w, (m w).1 ≠ Pending.

(** Worlds to evaluate examples in: two websockets in the room "lobby" of
    one kind, the store up, no websocket failing. *)
Definition lobby_of_two (kind : string) : World :=
  {| manager := register 2 "lobby" kind
                  (register 1 "lobby" kind ConnectionManager_init);
     db := empty_store;
     net := {| failing := ∅; sends := [] |} |}.

(** Three websockets in the room "lobby" of one kind, the first of which
    has gone away. *)
Definition lobby_of_three (kind : string) : World :=
  {| manager := register 3 "lobby" kind
                  (register 2 "lobby" kind
                     (register 1 "lobby" kind ConnectionManager_init));
     db := empty_store;
     net := {| failing := {[1 := RuntimeError]}; sends := [] |} |}.

(** A world whose store holds a note for "lobby". *)
Definition world_with_note (content : string) : World :=
  {| manager := ConnectionManager_init;
     db := {| canvasevent := [];
              note := [{| note_room := "lobby";
                          note_content := Some content |}];
              available := true;
              clock := 0 |};
     net := {| failing := ∅; sends := [] |} |}.

(** The event of a stroke that supplies nothing. *)
Definition default_event (room : string) : CanvasEvent :=
  {| ev_stroke := {| stroke_color := "#ffffff";
                     stroke_size := 2.0;
                     stroke_points := [] |};
     ev_user_id := None;
     ev_room := room |}.

(* ===================================================================== *)
(** ** The diagnostic endpoint *)

(** The [db] object of the [database] module as [test_database] sees it:
    its [name] attribute when it has one, and what
    [list_collection_names()] returns or raises. *)
Record Database := {
  db_name : option string;
  list_collection_names : Result (list string);
}.

(** The dict that [test_database] returns, key by key. *)
Record Response := {
  r_backend : string;
  r_database : string;
  r_database_url : option string;
  r_database_name : option string;
  r_connection_status : string;
  r_collections : list string;
}.

Definition set_database (v : string) (r : Response) : Response :=
  {| r_backend := r_backend r; r_database := v;
     r_database_url := r_database_url r;
     r_database_name := r_database_name r;
     r_connection_status := r_connection_status r;
     r_collections := r_collections r |}.

Definition set_database_url (v : string) (r : Response) : Response :=
  {| r_backend := r_backend r; r_database := r_database r;
     r_database_url := Some v;
     r_database_name := r_database_name r;
     r_connection_status := r_connection_status r;
     r_collections := r_collections r |}.

Definition set_database_name (v : string) (r : Response) : Response :=
  {| r_backend := r_backend r; r_database := r_database r;
     r_database_url := r_database_url r;
     r_database_name := Some v;
     r_connection_status := r_connection_status r;
     r_collections := r_collections r |}.

Definition set_connection_status (v : string) (r : Response) : Response :=
  {| r_backend := r_backend r; r_database := r_database r;
     r_database_url := r_database_url r;
     r_database_name := r_database_name r;
     r_connection_status := v;
     r_collections := r_collections r |}.

Definition set_collections (v : list string) (r : Response) : Response :=
  {| r_backend := r_backend r; r_database := r_database r;
     r_database_url := r_database_url r;
     r_database_name := r_database_name r;
     r_connection_status := r_connection_status r;
     r_collections := v |}.

(** The truth value of what [os.getenv] returns: [None] and the empty
    string are false. *)
Definition truthy (v : option string) : bool :=
  match v with
  | Some (String _ _) => true
  | _ => false
  end.

(** Whether a byte continues a character of a string held as UTF-8. *)
Definition is_continuation (c : Ascii.ascii) : bool :=
  match c with
  | Ascii.Ascii _ _ _ _ _ _ b6 b7 => b7 && negb b6
  end.

(** [s[:n]]: the first [n] characters of [s]. A string is held as its
    UTF-8 bytes, so a character is a byte that does not continue one,
    with the bytes that continue it. *)
Fixpoint py_prefix (n : nat) (s : string) : string :=
  match s with
  | "" => ""
  | String c s' =>
      if is_continuation c then String c (py_prefix n s')
      else match n with
           | 0 => ""
           | S n' => String c (py_prefix n' s')
           end
  end.

(** [[
@app.get("/test")
def test_database():
    response = {"backend": "✅ Running", "database": "❌ Not Available",
                "database_url": None, "database_name": None,
                "connection_status": "Not Connected", "collections": []}
    try:
        if db is not None:
            response["database"] = "✅ Available"
            response["database_url"] = "✅ Configured"
            response["database_name"] =
                db.name if hasattr(db, 'name') else "✅ Connected"
            response["connection_status"] = "Connected"
            try:
                collections = db.list_collection_names()
                response["collections"] = collections[:10]
                response["database"] = "✅ Connected & Working"
            except Exception as e:
                response["database"] =
                    f"⚠️  Connected but Error: {str(e)[:50]}"
        else:
            response["database"] = "⚠️  Available but not initialized"
    except Exception as e:
        response["database"] = f"❌ Error: {str(e)[:50]}"
    response["database_url"] =
        "✅ Set" if _os.getenv("DATABASE_URL") else "❌ Not Set"
    response["database_name"] =
        "✅ Set" if _os.getenv("DATABASE_NAME") else "❌ Not Set"
    return response
]]
    [exn_text] is [str] of an exception. Inside the outer [try] only the
    call of [list_collection_names] can raise, and that one has its own
    handler. *)
Definition test_database (exn_text : Exn -> string) (db : option Database)
    (getenv : string -> option string) : Response :=
  let response :=
    {| r_backend := "✅ Running";
       r_database := "❌ Not Available";
       r_database_url := None;
       r_database_name := None;
       r_connection_status := "Not Connected";
       r_collections := [] |} in
  let response :=
    match db with
    | Some d =>
        let response := set_database "✅ Available" response in
        let response := set_database_url "✅ Configured" response in
        let response :=
          set_database_name (default "✅ Connected" (db_name d)) response in
        let response := set_connection_status "Connected" response in
        match list_collection_names d with
        | Ok collections =>
            let response := set_collections (take 10 collections) response in
            set_database "✅ Connected & Working" response
        | Raise e =>
            set_database
              ("⚠️  Connected but Error: " +:+ py_prefix 50 (exn_text e))
              response
        end
    | None => set_database "⚠️  Available but not initialized" response
    end in
  let response :=
    set_database_url
      (if truthy (getenv "DATABASE_URL") then "✅ Set" else "❌ Not Set")
      response in
  let response :=
    set_database_name
      (if truthy (getenv "DATABASE_NAME") then "✅ Set" else "❌ Not Set")
      response in
  response.

(* ===================================================================== *)
(** ** Relations between the world before and after a computation *)

(** A computation that takes every world to one related to it by [R]. *)
Definition respects {A} (R : World -> World -> Prop) (m : M A) : Prop :=
  forall w, R w (m w).2.

(** What a relation has to allow for the handlers to respect it: a longer
    log of sends, another registry, the store after an event or a note of
    the room was written. *)
Definition allows_sends (R : World -> World -> Prop) : Prop :=
  forall w l, R w (log_sends l w).

Definition allows_registry (R : World -> World -> Prop) : Prop :=
  forall w cm, R w {| manager := cm; db := db w; net := net w |}.

Definition allows_event (R : World -> World -> Prop) (room : string)
  : Prop :=
  forall w ev s,
    ev_room ev = room ->
    create_document "canvasevent" ev (db w) = Ok s ->
    R w {| manager := manager w; db := s; net := net w |}.

Definition allows_note (R : World -> World -> Prop) (room : string) : Prop :=
  forall w content s,
    note_update_one room content (db w) = Ok s ->
    R w {| manager := manager w; db := s; net := net w |}.

(** The transport fails where it failed and the store is up as it was. *)
Definition same_conditions (w w' : World) : Prop :=
  failing (net w') = failing (net w) /\
  available (db w') = available (db w).

(** Stored events are kept, in order, and the new ones are of [room]. *)
Definition adds_events_of (room : string) (w w' : World) : Prop :=
  exists new,
    canvasevent (db w') = canvasevent (db w) ++ new /\
    Forall (fun d => ev_room (doc_event d) = room) new.

Definition keeps_events (w w' : World) : Prop :=
  canvasevent (db w') = canvasevent (db w).

Definition keeps_notes (w w' : World) : Prop :=
  note (db w') = note (db w).

(** No room has two note documents. *)
Definition unique_notes (s : Store) : Prop :=
  NoDup (note_room <$> note s).

Definition keeps_unique_notes (w w' : World) : Prop :=
  unique_notes (db w) -> unique_notes (db w').

(** Every session whose handler is in its loop has its websocket in the
    bucket of its room. *)
Definition live_registered (sys : System) : Prop :=
  forall ws s,
    sessions sys !! ws = Some s ->
    s_live s = true ->
    ws ∈ members (manager (world sys)) (kind_of (s_channel s)) (s_room s).

(** The process after its first connection, on websocket 7 and room
    "lobby", evaluated with [example_runtime]. *)
Definition after_first_connection (c : Channel) : System :=
  {| world := (@handler example_runtime c 7 "lobby" [] empty_world).2;
     sessions := <[7 := {| s_channel := c; s_room := "lobby";
                           s_live := true |}]> ∅ |}.

(** The process after a second connection to the same room. *)
Definition after_second_connection (c : Channel) : System :=
  {| world := (@handler example_runtime c 8 "lobby" []
                 (world (after_first_connection c))).2;
     sessions := <[8 := {| s_channel := c; s_room := "lobby";
                           s_live := true |}]>
                   (sessions (after_first_connection c)) |}.

(* ===================================================================== *)
(** * The registry *)

Lemma get_set_rooms kind rooms cm :
  _get_rooms kind (set_rooms kind rooms cm) = rooms.
Proof. unfold _get_rooms, set_rooms. repeat case_decide; done. Qed.

Lemma get_set_rooms_other kind kind' rooms cm :
  ¬ same_dict kind kind' ->
  _get_rooms kind' (set_rooms kind rooms cm) = _get_rooms kind' cm.
Proof.
  unfold same_dict, _get_rooms, set_rooms. intros Hne.
  repeat case_decide; simpl; try done; exfalso; apply Hne; done.
Qed.

Lemma get_rooms_same_dict kind kind' cm :
  same_dict kind kind' -> _get_rooms kind cm = _get_rooms kind' cm.
Proof.
  unfold same_dict, _get_rooms. intros [H1 H2].
  repeat case_decide; try done; exfalso; auto.
Qed.

Lemma set_get_rooms kind cm : set_rooms kind (_get_rooms kind cm) cm = cm.
Proof. unfold _get_rooms, set_rooms. destruct cm. case_decide; done. Qed.

Lemma register_lookup ws room kind cm :
  _get_rooms kind (register ws room kind cm) !! room
  = Some (members cm kind room ++ [ws]).
Proof.
  unfold register, members. rewrite get_set_rooms.
  destruct (_get_rooms kind cm !! room) as [b|] eqn:E; simpl.
  - rewrite lookup_alter_eq, E. done.
  - rewrite lookup_alter_eq, lookup_insert_eq. done.
Qed.

Lemma register_lookup_ne ws room room' kind cm :
  room' ≠ room ->
  _get_rooms kind (register ws room kind cm) !! room'
  = _get_rooms kind cm !! room'.
Proof.
  intros Hne. unfold register. rewrite get_set_rooms.
  destruct (_get_rooms kind cm !! room) as [b|] eqn:E.
  - rewrite lookup_alter_ne by done. done.
  - rewrite lookup_alter_ne, lookup_insert_ne by done. done.
Qed.

Lemma register_other_dict ws room kind kind' cm :
  ¬ same_dict kind kind' ->
  _get_rooms kind' (register ws room kind cm) = _get_rooms kind' cm.
Proof. intros Hne. unfold register. by rewrite get_set_rooms_other. Qed.

(** [disconnect], branch by branch. *)
Lemma disconnect_unfold ws room kind cm :
  disconnect ws room kind cm =
  match _get_rooms kind cm !! room with
  | Some bucket =>
      if decide (ws ∈ bucket) then
        if decide (remove_first ws bucket = [])
        then set_rooms kind (delete room (_get_rooms kind cm)) cm
        else set_rooms kind
               (<[room := remove_first ws bucket]> (_get_rooms kind cm)) cm
      else cm
  | None => cm
  end.
Proof.
  unfold disconnect.
  destruct (_get_rooms kind cm !! room) as [b|]; [|done].
  case_decide; [|done].
  rewrite lookup_insert_eq.
  case_decide as Hnil.
  - rewrite Hnil. by rewrite delete_insert_eq.
  - destruct (remove_first ws b); done.
Qed.

Lemma remove_first_notin ws bucket :
  ws ∉ bucket -> remove_first ws bucket = bucket.
Proof.
  induction bucket as [|y l IH]; [done|]. intros Hn. simpl.
  case_decide; [subst; set_solver|]. f_equal. apply IH. set_solver.
Qed.

Lemma remove_first_perm ws bucket :
  ws ∈ bucket -> bucket ≡ₚ ws :: remove_first ws bucket.
Proof.
  induction bucket as [|y l IH]; [set_solver|]. intros Hin. simpl.
  case_decide as Hy; [by subst|].
  apply elem_of_cons in Hin as [->|Hl]; [done|].
  rewrite (IH Hl) at 1. apply Permutation_swap.
Qed.

Lemma remove_first_subseteq ws bucket x :
  x ∈ remove_first ws bucket -> x ∈ bucket.
Proof.
  induction bucket as [|y l IH]; [done|]. simpl.
  case_decide; rewrite ?elem_of_cons; [by right|].
  intros [->|Hx]; [by left | right; by apply IH].
Qed.

Lemma remove_first_NoDup ws bucket :
  NoDup bucket -> NoDup (remove_first ws bucket).
Proof.
  induction 1 as [|y l Hy Hl IH]; simpl; [constructor|].
  case_decide; [done|]. constructor; [|done].
  intros Hin. apply Hy. by eapply remove_first_subseteq.
Qed.

Lemma occurrences_cons ws y l :
  occurrences ws (y :: l)
  = (if decide (y = ws) then 1 else 0) + occurrences ws l.
Proof.
  unfold occurrences. rewrite filter_cons. case_decide; done.
Qed.

Lemma occurrences_pos ws bucket : ws ∈ bucket <-> 0 < occurrences ws bucket.
Proof.
  induction bucket as [|y l IH].
  - split; [set_solver | unfold occurrences; simpl; lia].
  - rewrite occurrences_cons, elem_of_cons. case_decide; subst.
    + split; [lia | auto].
    + rewrite IH. split; [intros [?|?]; [congruence | lia] | intros; right; lia].
Qed.

Lemma occurrences_remove_first ws bucket :
  occurrences ws (remove_first ws bucket) = occurrences ws bucket - 1.
Proof.
  induction bucket as [|y l IH]; [done|]. simpl.
  rewrite occurrences_cons. case_decide; [lia|].
  rewrite occurrences_cons, IH. case_decide; [done | lia].
Qed.

Lemma occurrences_remove_first_ne ws x bucket :
  x ≠ ws -> occurrences x (remove_first ws bucket) = occurrences x bucket.
Proof.
  intros Hne. induction bucket as [|y l IH]; [done|]. simpl.
  rewrite occurrences_cons. case_decide.
  - subst. case_decide; [congruence | lia].
  - by rewrite occurrences_cons, IH.
Qed.

Lemma occurrences_NoDup ws bucket :
  NoDup bucket -> occurrences ws bucket <= 1.
Proof.
  induction 1 as [|y l Hy Hl IH]; [unfold occurrences; simpl; lia|].
  rewrite occurrences_cons. case_decide; [|lia]. subst.
  assert (¬ 0 < occurrences ws l) by (by rewrite <- occurrences_pos). lia.
Qed.

Lemma disconnect_absent ws room kind cm :
  ¬ in_bucket cm kind room ws -> disconnect ws room kind cm = cm.
Proof.
  intros Hn. rewrite disconnect_unfold.
  destruct (_get_rooms kind cm !! room) as [b|] eqn:E; [|done].
  case_decide; [|done]. exfalso. apply Hn. by exists b.
Qed.

Lemma disconnect_lookup ws room kind cm bucket :
  _get_rooms kind cm !! room = Some bucket ->
  ws ∈ bucket ->
  _get_rooms kind (disconnect ws room kind cm) !! room
  = if decide (remove_first ws bucket = []) then None
    else Some (remove_first ws bucket).
Proof.
  intros E Hin. rewrite disconnect_unfold, E.
  rewrite decide_True by done.
  case_decide; rewrite get_set_rooms.
  - apply lookup_delete_eq.
  - apply lookup_insert_eq.
Qed.

Lemma disconnect_lookup_ne ws room room' kind cm :
  room' ≠ room ->
  _get_rooms kind (disconnect ws room kind cm) !! room'
  = _get_rooms kind cm !! room'.
Proof.
  intros Hne. rewrite disconnect_unfold.
  destruct (_get_rooms kind cm !! room) as [b|]; [|done].
  repeat case_decide; try done; rewrite get_set_rooms.
  - by apply lookup_delete_ne.
  - by apply lookup_insert_ne.
Qed.

Lemma disconnect_other_dict ws room kind kind' cm :
  ¬ same_dict kind kind' ->
  _get_rooms kind' (disconnect ws room kind cm) = _get_rooms kind' cm.
Proof.
  intros Hne. rewrite disconnect_unfold.
  destruct (_get_rooms kind cm !! room) as [b|]; [|done].
  repeat case_decide; try done; by rewrite get_set_rooms_other.
Qed.

(** What is in a bucket after a deregistration was in it before. *)
Lemma disconnect_members_subseteq ws room kind kind' room' cm bucket' :
  _get_rooms kind' (disconnect ws room kind cm) !! room' = Some bucket' ->
  exists bucket,
    _get_rooms kind' cm !! room' = Some bucket /\
    (NoDup bucket -> NoDup bucket') /\
    (forall x, x ∈ bucket' -> x ∈ bucket).
Proof.
  intros E.
  destruct (decide (same_dict kind kind')) as [Hs|Hs].
  - rewrite <- (get_rooms_same_dict kind kind') in * by done.
    destruct (decide (room' = room)) as [->|Hr].
    + destruct (_get_rooms kind cm !! room) as [b|] eqn:Eb.
      * destruct (decide (ws ∈ b)) as [Hin|Hin].
        -- rewrite (disconnect_lookup _ _ _ _ b) in E by done.
           case_decide; [done|]. inversion E; subst. exists b.
           split; [done|]. split; [apply remove_first_NoDup|].
           intros x. apply remove_first_subseteq.
        -- rewrite disconnect_absent in E.
           ++ exists bucket'. rewrite E in Eb. inversion Eb; subst. done.
           ++ intros (b' & Eb' & Hb'). congruence.
      * rewrite disconnect_absent in E; [congruence|].
        intros (b' & Eb' & _). congruence.
    + rewrite disconnect_lookup_ne in E by done. by exists bucket'.
  - rewrite disconnect_other_dict in E by done. by exists bucket'.
Qed.

Lemma disconnect_twice ws room kind cm :
  occurrences ws (members cm kind room) <= 1 ->
  disconnect ws room kind (disconnect ws room kind cm)
  = disconnect ws room kind cm.
Proof.
  intros Hocc. apply disconnect_absent. intros (b' & Eb' & Hin').
  unfold members in Hocc.
  destruct (_get_rooms kind cm !! room) as [b|] eqn:Eb; simpl in Hocc.
  - destruct (decide (ws ∈ b)) as [Hin|Hin].
    + rewrite (disconnect_lookup _ _ _ _ b) in Eb' by done.
      case_decide; [done|]. inversion Eb'; subst.
      apply occurrences_pos in Hin'. rewrite occurrences_remove_first in Hin'.
      lia.
    + rewrite disconnect_absent in Eb'.
      * congruence.
      * intros (b'' & Eb'' & Hb''). congruence.
  - rewrite disconnect_absent in Eb'; [congruence|].
    intros (b'' & Eb'' & _). congruence.
Qed.

Lemma disconnect_all_empties ms : forall cm room kind bucket,
  _get_rooms kind cm !! room = Some bucket ->
  bucket ≠ [] ->
  ms ≡ₚ bucket ->
  _get_rooms kind (disconnect_all ms room kind cm) !! room = None.
Proof.
  induction ms as [|ws ms IH]; intros cm room kind bucket E Hne Hp.
  - symmetry in Hp. apply Permutation_nil_r in Hp. done.
  - assert (ws ∈ bucket) as Hin by (rewrite <- Hp; set_solver).
    assert (ms ≡ₚ remove_first ws bucket) as Hp'.
    { apply (Permutation_cons_inv (a := ws)).
      rewrite Hp. by apply remove_first_perm. }
    unfold disconnect_all. simpl. fold (disconnect_all ms room kind).
    pose proof (disconnect_lookup ws room kind cm bucket E Hin) as E'.
    case_decide as Hnil.
    + rewrite Hnil in Hp'. apply Permutation_nil_r in Hp'. subst ms. done.
    + by eapply IH.
Qed.

(** C5: deregistering a handle from a (kind, room) bucket takes one
    membership of it out of the bucket, and the entry of the room out of
    the dict when the bucket becomes empty; deregistering a handle that is
    not in the bucket changes nothing, and so does a second deregistration
    of a handle that was in it once; the other rooms and the other kind
    are untouched; and once every member of a room has deregistered, the
    room has no entry. [disconnect] is a total function: it never raises. *)
Theorem disconnect_deregisters (cm : ConnectionManager) (ws : WebSocket)
    (room kind : string) :
  let cm' := disconnect ws room kind cm in
  (forall bucket,
      _get_rooms kind cm !! room = Some bucket -> ws ∈ bucket ->
      _get_rooms kind cm' !! room
      = (if decide (remove_first ws bucket = []) then None
         else Some (remove_first ws bucket)) /\
      occurrences ws (members cm' kind room) = occurrences ws bucket - 1 /\
      forall x, x ≠ ws ->
        occurrences x (members cm' kind room) = occurrences x bucket) /\
  (¬ in_bucket cm kind room ws -> cm' = cm) /\
  (occurrences ws (members cm kind room) <= 1 ->
     ¬ in_bucket cm' kind room ws /\ disconnect ws room kind cm' = cm') /\
  (forall room', room' ≠ room ->
     _get_rooms kind cm' !! room' = _get_rooms kind cm !! room') /\
  (forall kind', ¬ same_dict kind kind' ->
     _get_rooms kind' cm' = _get_rooms kind' cm) /\
  (forall bucket ms,
      _get_rooms kind cm !! room = Some bucket -> bucket ≠ [] ->
      ms ≡ₚ bucket ->
      _get_rooms kind (disconnect_all ms room kind cm) !! room = None).
Proof.
  intros cm'. subst cm'. repeat split.
  - by apply disconnect_lookup.
  - unfold members. rewrite (disconnect_lookup _ _ _ _ bucket) by done.
    case_decide as Hnil; simpl.
    + rewrite <- Hnil. apply occurrences_remove_first.
    + apply occurrences_remove_first.
  - intros x Hx. unfold members.
    rewrite (disconnect_lookup _ _ _ _ bucket) by done.
    case_decide as Hnil; simpl.
    + rewrite <- Hnil. by apply occurrences_remove_first_ne.
    + by apply occurrences_remove_first_ne.
  - apply disconnect_absent.
  - intros (b' & Eb' & Hin'). unfold members in *.
    destruct (_get_rooms kind cm !! room) as [b|] eqn:Eb; simpl in *.
    + destruct (decide (ws ∈ b)) as [Hin|Hin].
      * rewrite (disconnect_lookup _ _ _ _ b) in Eb' by done.
        case_decide; [done|]. inversion Eb'; subst.
        apply occurrences_pos in Hin'.
        rewrite occurrences_remove_first in Hin'. lia.
      * rewrite disconnect_absent in Eb'; [congruence|].
        intros (b'' & Eb'' & Hb''). congruence.
    + rewrite disconnect_absent in Eb'; [congruence|].
      intros (b'' & Eb'' & _). congruence.
  - by apply disconnect_twice.
  - intros room' Hne. by apply disconnect_lookup_ne.
  - intros kind' Hne. by apply disconnect_other_dict.
  - intros bucket ms E Hne Hp. by eapply disconnect_all_empties.
Qed.

(* ===================================================================== *)
(** * What the handlers do to the registry *)

Arguments bind : simpl never.
Arguments try_except : simpl never.
Arguments try_except_disconnect : simpl never.
Arguments store_call : simpl never.
Arguments store_query : simpl never.
Arguments send_json : simpl never.
Arguments accept : simpl never.
Arguments on_manager : simpl never.
Arguments broadcast : simpl never.

Lemma bind_run {A B} (m : M A) (k : A -> M B) w :
  bind m k w =
  match m w with
  | (Done a, w') => k a w'
  | (Raised e, w') => (Raised e, w')
  | (Pending, w') => (Pending, w')
  end.
Proof. done. Qed.

Lemma keeps_ret {A} (a : A) : keeps_manager (ret a).
Proof. done. Qed.

Lemma keeps_raise {A} e : keeps_manager (@raise A e).
Proof. done. Qed.

Lemma keeps_pending {A} : keeps_manager (@pending A).
Proof. done. Qed.

Lemma keeps_bind {A B} (m : M A) (k : A -> M B) :
  keeps_manager m -> (forall a, keeps_manager (k a)) ->
  keeps_manager (bind m k).
Proof.
  intros Hm Hk w. unfold bind. specialize (Hm w).
  destruct (m w) as [[a| |] w']; simpl in *; [|done..].
  by rewrite Hk.
Qed.

Lemma keeps_try_except {A} (body : M A) handler :
  keeps_manager body -> (forall e, keeps_manager (handler e)) ->
  keeps_manager (try_except body handler).
Proof.
  intros Hm Hk w. unfold try_except. specialize (Hm w).
  destruct (body w) as [[a|e|] w']; simpl in *; [done| |done].
  by rewrite Hk.
Qed.

Lemma keeps_for_each {A} (l : list A) body :
  (forall x, keeps_manager (body x)) -> keeps_manager (for_each l body).
Proof.
  intros Hb. induction l as [|x l IH]; simpl.
  - apply keeps_ret.
  - apply keeps_bind; [apply Hb | intros _; apply IH].
Qed.

Lemma keeps_lift {A} (r : Result A) : keeps_manager (lift r).
Proof. by destruct r. Qed.

Lemma keeps_store_call f : keeps_manager (store_call f).
Proof. intros w. unfold store_call. by destruct (f (db w)). Qed.

Lemma keeps_store_query {A} (f : Store -> Result A) :
  keeps_manager (store_query f).
Proof. intros w. unfold store_query. by destruct (f (db w)). Qed.

Lemma keeps_accept ws : keeps_manager (accept ws).
Proof. intros w. unfold accept. by destruct (failing (net w) !! ws). Qed.

Lemma keeps_send_json ws message : keeps_manager (send_json ws message).
Proof. intros w. unfold send_json. by destruct (failing (net w) !! ws). Qed.

Lemma keeps_broadcast message room kind :
  keeps_manager (broadcast message room kind).
Proof.
  intros w. unfold broadcast. apply keeps_for_each. intros ws.
  apply keeps_try_except; [apply keeps_send_json | intros; apply keeps_ret].
Qed.

Lemma keeps_while_receiving body inbox :
  (forall data, keeps_manager (body data)) ->
  keeps_manager (while_receiving body inbox).
Proof.
  intros Hb. induction inbox as [|[data|e|] rest IH]; simpl.
  - apply keeps_pending.
  - apply keeps_bind; [apply Hb | intros _; apply IH].
  - apply keeps_raise.
  - apply keeps_raise.
Qed.

Create HintDb keeps.

#[local] Hint Resolve keeps_ret keeps_raise keeps_pending keeps_lift
  keeps_store_call keeps_store_query keeps_accept keeps_send_json
  keeps_broadcast : keeps.

Section HandlersAndRegistry.
Context `{PyRuntime}.

Lemma keeps_canvas_on_message ws room data :
  keeps_manager (canvas_on_message ws room data).
Proof.
  unfold canvas_on_message. apply keeps_try_except.
  - apply keeps_bind; [auto with keeps|]. intros ev.
    apply keeps_bind; auto with keeps.
  - auto with keeps.
Qed.

Lemma keeps_note_on_message ws room data :
  keeps_manager (note_on_message ws room data).
Proof.
  unfold note_on_message. destruct (is_update data).
  - apply keeps_bind; auto with keeps.
  - auto with keeps.
Qed.

(** A body that keeps the registry, under the handlers' [try]: the registry
    is kept, or the session's own websocket is deregistered. *)
Lemma try_disconnect_manager (body : M unit) ws room kind w cm :
  keeps_manager body ->
  manager w = cm ->
  manager
    (try_except_disconnect body (on_manager (disconnect ws room kind)) w).2
  = cm \/
  manager
    (try_except_disconnect body (on_manager (disconnect ws room kind)) w).2
  = disconnect ws room kind cm.
Proof.
  intros Hb <-. unfold try_except_disconnect. specialize (Hb w).
  destruct (body w) as [[a|e|] w']; simpl in *; [by left| |by left].
  destruct (is_disconnect e); simpl; [right | left]; congruence.
Qed.

Lemma resume_manager c ws room inbox w :
  manager (resume c ws room inbox w).2 = manager w \/
  manager (resume c ws room inbox w).2
  = disconnect ws room (kind_of c) (manager w).
Proof.
  destruct c; simpl; apply try_disconnect_manager; try done;
    apply keeps_while_receiving; intros data;
    [apply keeps_canvas_on_message | apply keeps_note_on_message].
Qed.

(** A handler registers its websocket once, under its own room and kind,
    and deregisters nothing but that. *)
Lemma handler_manager c ws room inbox w :
  let cm' := manager (handler c ws room inbox w).2 in
  cm' = manager w \/
  cm' = register ws room (kind_of c) (manager w) \/
  cm' = disconnect ws room (kind_of c)
          (register ws room (kind_of c) (manager w)).
Proof.
  destruct c; simpl.
  - unfold ws_canvas, connect. rewrite !bind_run.
    pose proof (keeps_accept ws w) as Ha.
    destruct (accept ws w) as [[[]|e|] w1]; simpl in *; [|by left..].
    right. apply try_disconnect_manager; [|simpl; congruence].
    apply keeps_while_receiving, keeps_canvas_on_message.
  - unfold ws_note, connect. rewrite !bind_run.
    pose proof (keeps_accept ws w) as Ha.
    destruct (accept ws w) as [[[]|e|] w1]; simpl in *; [|by left..].
    rewrite bind_run.
    match goal with
    | |- context [store_query ?f ?w2] =>
        pose proof (keeps_store_query f w2) as Hq;
        destruct (store_query f w2) as [[cur|e|] w3]
    end; simpl in *; rewrite Ha in *;
      [|right; left; congruence..].
    right. apply try_disconnect_manager; [|congruence].
    apply keeps_bind; [auto with keeps|]. intros _.
    apply keeps_while_receiving, keeps_note_on_message.
Qed.

End HandlersAndRegistry.

(* ===================================================================== *)
(** * The registry and the sessions *)

Lemma agrees_init ss : agrees ConnectionManager_init ss.
Proof.
  intros kind room bucket. unfold _get_rooms, ConnectionManager_init.
  case_decide; simpl; by rewrite lookup_empty.
Qed.

Lemma agrees_insert cm ss ws s' :
  agrees cm ss ->
  (forall s, ss !! ws = Some s ->
             s_room s' = s_room s /\ s_channel s' = s_channel s) ->
  agrees cm (<[ws := s']> ss).
Proof.
  intros Hag Hs kind room bucket E.
  destruct (Hag kind room bucket E) as [Hnd Hin]. split; [done|].
  intros x Hx. destruct (Hin x Hx) as (s & Es & Hr & Hk).
  destruct (decide (x = ws)) as [->|Hne].
  - exists s'. rewrite lookup_insert_eq.
    destruct (Hs s Es) as [-> ->]. done.
  - exists s. by rewrite lookup_insert_ne.
Qed.

Lemma agrees_disconnect cm ss ws room kind :
  agrees cm ss -> agrees (disconnect ws room kind cm) ss.
Proof.
  intros Hag kind' room' bucket' E.
  destruct (disconnect_members_subseteq _ _ _ _ _ _ _ E)
    as (bucket & Eb & Hnd & Hsub).
  destruct (Hag kind' room' bucket Eb) as [Hnd' Hin]. split; [auto|].
  intros x Hx. apply Hin, Hsub, Hx.
Qed.

Lemma agrees_register cm ss ws c room live :
  agrees cm ss ->
  ss !! ws = None ->
  agrees (register ws room (kind_of c) cm)
    (<[ws := {| s_channel := c; s_room := room; s_live := live |}]> ss).
Proof.
  intros Hag Hfresh kind' room' bucket' E.
  assert (forall kind room bucket x,
             _get_rooms kind cm !! room = Some bucket -> x ∈ bucket ->
             x ≠ ws) as Hother.
  { intros kind0 room0 bucket0 x E0 Hx ->.
    destruct (Hag _ _ _ E0) as [_ Hin].
    destruct (Hin ws Hx) as (s & Es & _). congruence. }
  assert (forall bucket,
             _get_rooms kind' cm !! room' = Some bucket ->
             NoDup bucket /\
             forall x, x ∈ bucket ->
               exists s,
                 <[ws := {| s_channel := c; s_room := room;
                            s_live := live |}]> ss !! x = Some s /\
                 s_room s = room' /\
                 same_dict kind' (kind_of (s_channel s))) as Hold.
  { intros bucket Eb. destruct (Hag _ _ _ Eb) as [Hnd Hin].
    split; [done|]. intros x Hx.
    destruct (Hin x Hx) as (s & Es & Hr & Hk). exists s.
    rewrite lookup_insert_ne; [done|].
    intros <-. by eapply Hother. }
  destruct (decide (same_dict (kind_of c) kind')) as [Hs|Hs].
  - rewrite <- (get_rooms_same_dict (kind_of c) kind') in * by done.
    destruct (decide (room' = room)) as [->|Hr].
    + rewrite register_lookup in E. inversion E; subst bucket'.
      unfold members.
      destruct (_get_rooms (kind_of c) cm !! room) as [b|] eqn:Eb; simpl.
      * destruct (Hold b eq_refl) as [Hnd Hin]. split.
        -- apply NoDup_app. split; [done|]. split; [|apply NoDup_singleton].
           intros x Hx Hx'. apply list_elem_of_singleton in Hx'. subst x.
           by eapply Hother.
        -- intros x Hx. apply elem_of_app in Hx as [Hx|Hx]; [auto|].
           apply list_elem_of_singleton in Hx. subst x.
           eexists. rewrite lookup_insert_eq. split; [done|]. simpl.
           split; [done|]. unfold same_dict in *. tauto.
      * split; [apply NoDup_singleton|].
        intros x Hx. apply list_elem_of_singleton in Hx. subst x.
        eexists. rewrite lookup_insert_eq. split; [done|]. simpl.
        split; [done|]. unfold same_dict in *. tauto.
    + rewrite register_lookup_ne in E by done. by apply Hold.
  - rewrite register_other_dict in E by done. by apply Hold.
Qed.

Section Invariant.
Context `{PyRuntime}.

Lemma registry_inv_step sys sys' :
  registry_inv sys -> step sys sys' -> registry_inv sys'.
Proof.
  unfold registry_inv. intros Hag Hstep.
  destruct Hstep as [c ws room sys o w' Hfresh Hrun
                    |ws s i sys o w' Hs Hlive Hrun
                    |sys w' Hm]; simpl.
  - pose proof (handler_manager c ws room [] (world sys)) as Hm.
    rewrite Hrun in Hm. simpl in Hm.
    destruct Hm as [-> | [-> | ->]].
    + apply agrees_insert; [done|]. intros s Es. congruence.
    + by apply agrees_register.
    + by apply agrees_disconnect, agrees_register.
  - pose proof (resume_manager (s_channel s) ws (s_room s) [i] (world sys))
      as Hm.
    rewrite Hrun in Hm. simpl in Hm.
    assert (agrees (manager (world sys))
              (<[ws := {| s_channel := s_channel s; s_room := s_room s;
                          s_live := is_pending o |}]> (sessions sys)))
      as Hag'.
    { apply agrees_insert; [done|]. intros s0 Es0.
      rewrite Hs in Es0. by inversion Es0. }
    destruct Hm as [-> | ->]; [done|]. by apply agrees_disconnect.
  - by rewrite Hm.
Qed.

Lemma registry_inv_reachable sys : reachable sys -> registry_inv sys.
Proof.
  induction 1 as [sys [Hm Hs]|sys sys' _ IH Hstep].
  - unfold registry_inv. rewrite Hm. apply agrees_init.
  - by eapply registry_inv_step.
Qed.

(** C9: in every state that the session handlers reach, a connection
    handle is in at most one room bucket of a channel kind, and at most
    once in that bucket. *)
Theorem registry_one_bucket (sys : System) :
  reachable sys ->
  forall (ws : WebSocket) (kind : string),
    (forall room room',
        in_bucket (manager (world sys)) kind room ws ->
        in_bucket (manager (world sys)) kind room' ws ->
        room = room') /\
    (forall room,
        occurrences ws (members (manager (world sys)) kind room) <= 1).
Proof.
  intros Hreach ws kind.
  pose proof (registry_inv_reachable sys Hreach) as Hinv. split.
  - intros room room' (b & Eb & Hb) (b' & Eb' & Hb').
    destruct (Hinv _ _ _ Eb) as [_ Hin].
    destruct (Hinv _ _ _ Eb') as [_ Hin'].
    destruct (Hin ws Hb) as (s & Es & <- & _).
    destruct (Hin' ws Hb') as (s' & Es' & <- & _).
    congruence.
  - intros room. unfold members.
    destruct (_get_rooms kind (manager (world sys)) !! room) as [b|] eqn:Eb;
      simpl.
    + apply occurrences_NoDup. by destruct (Hinv _ _ _ Eb).
    + unfold occurrences. simpl. lia.
Qed.

End Invariant.

(* ===================================================================== *)
(** * Sends and broadcasts *)

Lemma log_sends_nil w : log_sends [] w = w.
Proof.
  destruct w as [cm s [f l]]. unfold log_sends. simpl.
  by rewrite app_nil_r.
Qed.

Lemma log_sends_app l1 l2 w :
  log_sends l2 (log_sends l1 w) = log_sends (l1 ++ l2) w.
Proof. unfold log_sends. simpl. by rewrite app_assoc. Qed.

Lemma attempt_log_sends l w : attempt (log_sends l w) = attempt w.
Proof. done. Qed.

Lemma send_json_run ws message w :
  send_json ws message w =
  (match failing (net w) !! ws with
   | Some e => Raised e
   | None => Done tt
   end,
   log_sends [attempt w message ws] w).
Proof.
  unfold send_json, attempt, log_send, log_sends.
  by destruct (failing (net w) !! ws) as [e|].
Qed.

Lemma send_all_run message l : forall w,
  for_each l (fun ws => try_except (send_json ws message) (fun _ => ret tt)) w
  = (Done tt, log_sends (attempt w message <$> l) w).
Proof.
  induction l as [|x l IH]; intros w; simpl.
  - by rewrite log_sends_nil.
  - rewrite bind_run. unfold try_except. rewrite send_json_run.
    destruct (failing (net w) !! x); unfold ret;
      rewrite IH, log_sends_app, attempt_log_sends; done.
Qed.

(** [broadcast], as one equation. *)
Lemma broadcast_run message room kind w :
  broadcast message room kind w
  = (Done tt,
     log_sends (attempt w message <$> members (manager w) kind room) w).
Proof. unfold broadcast, members. apply send_all_run. Qed.

(** One send of the loop: what it raises is dropped. *)
Lemma try_send_run ws message w :
  try_except (send_json ws message) (fun _ => ret tt) w
  = (Done tt, log_sends [attempt w message ws] w).
Proof.
  unfold try_except. rewrite send_json_run.
  by destruct (failing (net w) !! ws).
Qed.

Lemma iterated_items room kind cm :
  it_items (iterated room kind cm) = members cm kind room.
Proof.
  unfold iterated, members. by destruct (_get_rooms kind cm !! room).
Qed.

(** With no other task during its sends the loop is [broadcast]. *)
Lemma broadcast_live_alone message room kind w :
  broadcast_live message room kind [] w = broadcast message room kind w.
Proof.
  unfold broadcast_live, broadcast. simpl.
  by rewrite drop_0, iterated_items.
Qed.

Lemma run_others_keeps room kind during : forall w it,
  db (run_others room kind during w it).1 = db w /\
  sends (net (run_others room kind during w it).1) = sends (net w).
Proof.
  induction during as [|o during IH]; intros w it; simpl; [done|].
  destruct (IH (run_other o w)
              (iterated_after room kind (manager (run_other o w)) it))
    as [-> ->].
  by destruct o.
Qed.

(** Whatever other tasks do, the loop returns, and the store is as it
    was. *)
Lemma broadcast_from_returns message room kind others : forall i it w,
  (broadcast_from message room kind others i it w).1 = Done tt /\
  db (broadcast_from message room kind others i it w).2 = db w.
Proof.
  induction others as [|during others IH]; intros i it w; simpl.
  - by rewrite send_all_run.
  - destruct (it_items it !! i) as [ws|]; [|done].
    rewrite bind_run, try_send_run.
    pose proof (run_others_keeps room kind during
                  (log_sends [attempt w message ws] w) it) as [Hd _].
    destruct (run_others room kind during
                (log_sends [attempt w message ws] w) it) as [w' it'].
    destruct (IH (S i) it' w') as [-> ->]. done.
Qed.

Lemma lookup_after_register ws room room' kind kind' cm :
  room' ≠ room \/ ¬ same_dict kind' kind ->
  _get_rooms kind (register ws room' kind' cm) !! room
  = _get_rooms kind cm !! room.
Proof.
  intros Hel. destruct (decide (kind' = "canvas")) as [Hk'|Hk'];
    destruct (decide (kind = "canvas")) as [Hk|Hk].
  - destruct Hel as [Hr|Hd]; [|by destruct Hd].
    rewrite !(get_rooms_same_dict kind kind') by done.
    by apply register_lookup_ne.
  - by rewrite register_other_dict by (intros [Hd _]; auto).
  - by rewrite register_other_dict by (intros [_ Hd]; auto).
  - destruct Hel as [Hr|Hd]; [|by destruct Hd].
    rewrite !(get_rooms_same_dict kind kind') by done.
    by apply register_lookup_ne.
Qed.

Lemma lookup_after_disconnect ws room room' kind kind' cm :
  room' ≠ room \/ ¬ same_dict kind' kind ->
  _get_rooms kind (disconnect ws room' kind' cm) !! room
  = _get_rooms kind cm !! room.
Proof.
  intros Hel. destruct (decide (kind' = "canvas")) as [Hk'|Hk'];
    destruct (decide (kind = "canvas")) as [Hk|Hk].
  - destruct Hel as [Hr|Hd]; [|by destruct Hd].
    rewrite !(get_rooms_same_dict kind kind') by done.
    by apply disconnect_lookup_ne.
  - by rewrite disconnect_other_dict by (intros [Hd _]; auto).
  - by rewrite disconnect_other_dict by (intros [_ Hd]; auto).
  - destruct Hel as [Hr|Hd]; [|by destruct Hd].
    rewrite !(get_rooms_same_dict kind kind') by done.
    by apply disconnect_lookup_ne.
Qed.

Lemma run_other_leaves room kind o w :
  leaves_bucket room kind o ->
  iterated room kind (manager (run_other o w))
  = iterated room kind (manager w).
Proof.
  unfold iterated. destruct o as [ws r k|ws r k|ws e]; simpl; [| |done].
  - intros Hel. by rewrite lookup_after_register.
  - intros Hel. by rewrite lookup_after_disconnect.
Qed.

Lemma run_others_leaves room kind during : forall w,
  Forall (leaves_bucket room kind) during ->
  (run_others room kind during w (iterated room kind (manager w))).2
  = iterated room kind (manager w) /\
  iterated room kind
    (manager (run_others room kind during w
                (iterated room kind (manager w))).1)
  = iterated room kind (manager w).
Proof.
  induction during as [|o during IH]; intros w Hall; simpl; [done|].
  apply Forall_cons in Hall as [Ho Hall].
  pose proof (run_other_leaves room kind o w Ho) as Hsame.
  assert (iterated_after room kind (manager (run_other o w))
            (iterated room kind (manager w))
          = iterated room kind (manager (run_other o w))) as ->.
  { unfold iterated_after. rewrite Hsame.
    by destruct (it_in_dict (iterated room kind (manager w))). }
  destruct (IH (run_other o w) Hall) as [H1 H2].
  by rewrite H1, H2.
Qed.

(** When the other tasks leave the bucket alone, the loop tries one send to
    every handle of the bucket from its position on, in the order of the
    bucket, with the message it was given. *)
Lemma broadcast_from_undisturbed message room kind others : forall i w,
  Forall (Forall (leaves_bucket room kind)) others ->
  exists atts,
    sends (net (broadcast_from message room kind others i
                  (iterated room kind (manager w)) w).2)
    = sends (net w) ++ atts /\
    att_to <$> atts = drop i (members (manager w) kind room) /\
    Forall (fun a => att_payload a = message) atts.
Proof.
  induction others as [|during others IH]; intros i w Hall; simpl.
  - rewrite send_all_run, iterated_items. simpl. eexists.
    split; [done|]. split.
    + rewrite <- list_fmap_compose. apply list_fmap_id.
    + apply Forall_fmap, Forall_true. done.
  - apply Forall_cons in Hall as [Hd Hall].
    rewrite iterated_items.
    destruct (members (manager w) kind room !! i) as [ws|] eqn:Ei.
    + rewrite bind_run, try_send_run.
      set (w1 := log_sends [attempt w message ws] w).
      change (iterated room kind (manager w))
        with (iterated room kind (manager w1)).
      pose proof (run_others_leaves room kind during w1 Hd) as [H1 H2].
      pose proof (run_others_keeps room kind during w1
                    (iterated room kind (manager w1))) as [_ Hs].
      destruct (run_others room kind during w1
                  (iterated room kind (manager w1))) as [w' it'].
      simpl in *. subst it'. rewrite <- H2.
      destruct (IH (S i) w' Hall) as (atts & Hsends & Hto & Hpay).
      exists (attempt w message ws :: atts). split; [|split].
      * rewrite Hsends, Hs. subst w1. simpl. by rewrite <- app_assoc.
      * rewrite fmap_cons, Hto. simpl.
        rewrite <- !iterated_items, H2. simpl. rewrite iterated_items.
        symmetry. by apply drop_S.
      * by constructor.
    + exists []. rewrite app_nil_r. split; [done|]. split; [|done].
      rewrite drop_ge; [done|]. by apply lookup_ge_None_1.
Qed.

Lemma remove_first_middle x before after :
  x ∉ before -> remove_first x (before ++ x :: after) = before ++ after.
Proof.
  induction before as [|y l IH]; simpl; intros Hn.
  - by rewrite decide_True.
  - rewrite decide_False by set_solver. f_equal. apply IH. set_solver.
Qed.

Lemma drop_past_middle {A} (l1 l2 : list A) y :
  drop (S (length l1)) (l1 ++ y :: l2) = l2.
Proof. induction l1 as [|z l1 IH]; [done|]. simpl. apply IH. Qed.

(** Sends during which no other task does anything. *)
Lemma broadcast_from_idle message room kind n others : forall i it w,
  i + n <= length (it_items it) ->
  broadcast_from message room kind (replicate n [] ++ others) i it w
  = broadcast_from message room kind others (i + n) it
      (log_sends (attempt w message <$> take n (drop i (it_items it))) w).
Proof.
  induction n as [|n IH]; intros i it w Hlen; simpl.
  - by rewrite log_sends_nil, Nat.add_0_r.
  - destruct (it_items it !! i) as [ws|] eqn:Ei.
    2: { apply lookup_ge_None_1 in Ei. lia. }
    rewrite bind_run, try_send_run, IH by lia.
    rewrite (drop_S _ _ _ Ei). simpl.
    by rewrite log_sends_app, attempt_log_sends, Nat.add_succ_r.
Qed.

(** The position of the loop against a list that moves up: when the handle
    the loop is sending to is deregistered during that send, the handle
    after it gets no send, and stays in the bucket. *)
Lemma broadcast_skips_the_next message room kind before x y after w :
  _get_rooms kind (manager w) !! room = Some (before ++ x :: y :: after) ->
  x ∉ before ->
  let r := broadcast_live message room kind
             (replicate (length before) [] ++
              [[OtherDisconnects x room kind]]) w in
  r.1 = Done tt /\
  members (manager r.2) kind room = before ++ y :: after /\
  exists atts,
    sends (net r.2) = sends (net w) ++ atts /\
    att_to <$> atts = before ++ x :: after.
Proof.
  intros Hl Hx. simpl. unfold broadcast_live, iterated. rewrite Hl.
  rewrite broadcast_from_idle
    by (simpl; rewrite length_app; simpl; lia).
  cbn [it_items broadcast_from]. rewrite drop_0, take_app_length.
  change (0 + length before) with (length before).
  rewrite list_lookup_middle by done.
  rewrite bind_run, try_send_run.
  cbn [run_others run_other manager log_sends].
  unfold iterated_after, iterated. cbn [it_in_dict manager].
  rewrite (disconnect_lookup _ _ _ _ _ Hl)
    by (apply elem_of_app; right; apply list_elem_of_here).
  rewrite remove_first_middle by done.
  rewrite decide_False by (by destruct before).
  cbn [it_items]. rewrite drop_past_middle, send_all_run.
  split; [done|]. split.
  - unfold members. cbn [manager log_sends snd].
    rewrite (disconnect_lookup _ _ _ _ _ Hl)
      by (apply elem_of_app; right; apply list_elem_of_here).
    rewrite remove_first_middle by done.
    by rewrite decide_False by (by destruct before).
  - eexists. split.
    + cbn [snd net sends log_sends]. rewrite <- !app_assoc. done.
    + rewrite !fmap_app, fmap_cons, <- !list_fmap_compose.
      by rewrite !list_fmap_id.
Qed.

(** A bucket of three whose second websocket is closed: the third is still
    tried. *)
Example broadcast_past_a_closed_socket :
  let w := {| manager := register 3 "lobby" "note"
                           (register 2 "lobby" "note"
                              (register 1 "lobby" "note"
                                 ConnectionManager_init));
              db := empty_store;
              net := {| failing := {[2 := RuntimeError]}; sends := [] |} |} in
  (broadcast (MUpdate "hi") "lobby" "note" w).1 = Done tt /\
  sends (net (broadcast (MUpdate "hi") "lobby" "note" w).2)
  = [ {| att_to := 1; att_payload := MUpdate "hi"; att_delivered := true |};
      {| att_to := 2; att_payload := MUpdate "hi"; att_delivered := false |};
      {| att_to := 3; att_payload := MUpdate "hi"; att_delivered := true |} ].
Proof. split; vm_compute; reflexivity. Qed.

(** C3: [broadcast] does not raise, and a send that fails does not end its
    loop: left alone it tries the three handles of the bucket, the closed
    first one included. But the loop runs over the list of the bucket
    itself, and other tasks run while a send is suspended. When the
    handler of the closed websocket deregisters it during the send to it,
    the list moves up under the position of the loop: the handle that
    followed gets no send, though it is in the bucket before and after. *)
Theorem broadcast_skips_a_handle_when_another_leaves :
  let w := lobby_of_three "note" in
  let alone := broadcast_live (MUpdate "hi") "lobby" "note" [] w in
  let r := broadcast_live (MUpdate "hi") "lobby" "note"
             [[OtherDisconnects 1 "lobby" "note"]] w in
  members (manager w) "note" "lobby" = [1; 2; 3] /\
  failing (net w) !! 1 = Some RuntimeError /\
  att_to <$> sends (net alone.2) = [1; 2; 3] /\
  r.1 = Done tt /\
  members (manager r.2) "note" "lobby" = [2; 3] /\
  att_to <$> sends (net r.2) = [1; 3].
Proof. vm_compute. repeat split. Qed.

(** X24: whatever other tasks do while its sends are suspended,
    [broadcast] returns without raising and leaves the store as it was.
    With no other task during its sends it is the loop over the bucket as
    it was at the call. When the other tasks leave the bucket alone (they
    register and deregister elsewhere, peers go away), it tries one send
    to every handle of the bucket, in the order of the bucket, with the
    message it was given. *)
Theorem broadcast_among_other_tasks (message : Message) (room kind : string)
    (others : list (list Other)) (w : World) :
  let r := broadcast_live message room kind others w in
  r.1 = Done tt /\
  db r.2 = db w /\
  broadcast_live message room kind [] w = broadcast message room kind w /\
  (Forall (Forall (leaves_bucket room kind)) others ->
   exists atts,
     sends (net r.2) = sends (net w) ++ atts /\
     att_to <$> atts = members (manager w) kind room /\
     Forall (fun a => att_payload a = message) atts).
Proof.
  simpl. unfold broadcast_live at 1 2 4.
  destruct (broadcast_from_returns message room kind others 0
              (iterated room kind (manager w)) w) as [Hr Hd].
  split; [done|]. split; [done|].
  split; [apply broadcast_live_alone|].
  intros Hall.
  destruct (broadcast_from_undisturbed message room kind others 0 w Hall)
    as (atts & Hs & Hto & Hpay).
  exists atts. by rewrite drop_0 in Hto.
Qed.

Lemma appends_ret {A} (a : A) : appends (ret a).
Proof. intros w. exists []. simpl. by rewrite app_nil_r. Qed.

Lemma appends_raise {A} e : appends (@raise A e).
Proof. intros w. exists []. simpl. by rewrite app_nil_r. Qed.

Lemma appends_pending {A} : appends (@pending A).
Proof. intros w. exists []. simpl. by rewrite app_nil_r. Qed.

Lemma appends_bind {A B} (m : M A) (k : A -> M B) :
  appends m -> (forall a, appends (k a)) -> appends (bind m k).
Proof.
  intros Hm Hk w. rewrite bind_run. destruct (Hm w) as [l Hl].
  destruct (m w) as [[a| |] w']; simpl in *; [|by exists l..].
  destruct (Hk a w') as [l' Hl']. exists (l ++ l').
  by rewrite Hl', Hl, app_assoc.
Qed.

Lemma appends_try_except {A} (body : M A) handler :
  appends body -> (forall e, appends (handler e)) ->
  appends (try_except body handler).
Proof.
  intros Hm Hk w. unfold try_except. destruct (Hm w) as [l Hl].
  destruct (body w) as [[a|e|] w']; simpl in *; [by exists l| |by exists l].
  destruct (Hk e w') as [l' Hl']. exists (l ++ l').
  by rewrite Hl', Hl, app_assoc.
Qed.

Lemma appends_try_except_disconnect {A} (body handler : M A) :
  appends body -> appends handler ->
  appends (try_except_disconnect body handler).
Proof.
  intros Hm Hk w. unfold try_except_disconnect. destruct (Hm w) as [l Hl].
  destruct (body w) as [[a|e|] w']; simpl in *; [by exists l| |by exists l].
  destruct (is_disconnect e); [|by exists l].
  destruct (Hk w') as [l' Hl']. exists (l ++ l').
  by rewrite Hl', Hl, app_assoc.
Qed.

Lemma appends_lift {A} (r : Result A) : appends (lift r).
Proof. destruct r; [apply appends_ret | apply appends_raise]. Qed.

Lemma appends_store_call f : appends (store_call f).
Proof.
  intros w. exists []. unfold store_call.
  destruct (f (db w)); simpl; by rewrite app_nil_r.
Qed.

Lemma appends_store_query {A} (f : Store -> Result A) :
  appends (store_query f).
Proof.
  intros w. exists []. unfold store_query.
  destruct (f (db w)); simpl; by rewrite app_nil_r.
Qed.

Lemma appends_on_manager f : appends (on_manager f).
Proof. intros w. exists []. unfold on_manager. simpl. by rewrite app_nil_r. Qed.

Lemma appends_send_json ws message : appends (send_json ws message).
Proof. intros w. rewrite send_json_run. by eexists. Qed.

Lemma appends_broadcast message room kind :
  appends (broadcast message room kind).
Proof. intros w. rewrite broadcast_run. by eexists. Qed.

Lemma appends_while_receiving body inbox :
  (forall data, appends (body data)) ->
  appends (while_receiving body inbox).
Proof.
  intros Hb. induction inbox as [|[data|e|] rest IH]; simpl.
  - apply appends_pending.
  - apply appends_bind; [apply Hb | intros _; apply IH].
  - apply appends_raise.
  - apply appends_raise.
Qed.

(* ===================================================================== *)
(** * The canvas session *)

Lemma dict_get_set_eq k v d : dict_get k (dict_set k v d) = Some v.
Proof.
  induction d as [|[k' v'] d IH]; simpl.
  - by rewrite decide_True.
  - case_decide; simpl.
    + by rewrite decide_True.
    + by rewrite decide_False.
Qed.

Lemma dict_get_set_ne k k' v d :
  k ≠ k' -> dict_get k' (dict_set k v d) = dict_get k' d.
Proof.
  intros Hne. induction d as [|[k0 v0] d IH]; simpl.
  - by rewrite decide_False.
  - case_decide; simpl.
    + subst k0. by rewrite !decide_False.
    + case_decide; done.
Qed.

Section CanvasSession.
Context `{PyRuntime}.

(** A validated event has the room of the keyword arguments. *)
Lemma CanvasEvent_validate_room kwargs room ev :
  dict_get "room" kwargs = Some (JStr room) ->
  CanvasEvent_validate kwargs = inr ev ->
  ev_room ev = room.
Proof.
  unfold CanvasEvent_validate. intros ->. simpl.
  destruct (match dict_get "stroke" kwargs with
            | Some a => CanvasStroke_validate [Key "stroke"] a
            | None => invalid [Key "stroke"] missing
            end) as [es|s]; [done|].
  destruct (match dict_get "user_id" kwargs with
            | Some a => validate_optional_str [Key "user_id"] a
            | None => inr None
            end) as [es|u]; [done|].
  intros [= <-]. done.
Qed.

Lemma canvas_event_of_room data room ev :
  canvas_event_of data room = Ok ev -> ev_room ev = room.
Proof.
  unfold canvas_event_of. destruct data as [| | | | | |d]; try done.
  destruct (CanvasEvent_validate (dict_set "room" (JStr room) d))
    as [es|ev'] eqn:E; [done|].
  intros [= <-]. eapply CanvasEvent_validate_room; [|done].
  apply dict_get_set_eq.
Qed.

(** The body of the loop of [ws_canvas], case by case. *)
Lemma canvas_on_message_run ws room data w :
  canvas_on_message ws room data w =
  match canvas_event_of data room with
  | Raise e => send_json ws (MErrorOf e) w
  | Ok ev =>
      match create_document "canvasevent" ev (db w) with
      | Raise e => send_json ws (MErrorOf e) w
      | Ok s =>
          (Done tt,
           log_sends
             (attempt w (MStroke ev) <$> members (manager w) "canvas" room)
             {| manager := manager w; db := s; net := net w |})
      end
  end.
Proof.
  unfold canvas_on_message, try_except. rewrite bind_run.
  destruct (canvas_event_of data room) as [ev|e]; simpl; [|done].
  rewrite bind_run. unfold store_call.
  destruct (create_document "canvasevent" ev (db w)) as [s|e]; [|done].
  by rewrite broadcast_run.
Qed.

Lemma broadcast_live_run message room kind others w :
  broadcast_live message room kind others w
  = (Done tt, (broadcast_live message room kind others w).2).
Proof.
  unfold broadcast_live.
  destruct (broadcast_from_returns message room kind others 0
              (iterated room kind (manager w)) w) as [Hr _].
  destruct (broadcast_from message room kind others 0
              (iterated room kind (manager w)) w) as [o w'].
  simpl in Hr. by subst o.
Qed.

(** The body of the loop of [ws_canvas] among other tasks, case by case. *)
Lemma canvas_on_message_live_run ws room data others w :
  canvas_on_message_live ws room data others w =
  match canvas_event_of data room with
  | Raise e => send_json ws (MErrorOf e) w
  | Ok ev =>
      match create_document "canvasevent" ev (db w) with
      | Raise e => send_json ws (MErrorOf e) w
      | Ok s =>
          (Done tt,
           (broadcast_live (MStroke ev) room "canvas" others
              {| manager := manager w; db := s; net := net w |}).2)
      end
  end.
Proof.
  unfold canvas_on_message_live, try_except. rewrite bind_run.
  destruct (canvas_event_of data room) as [ev|e]; simpl; [|done].
  rewrite bind_run. unfold store_call.
  destruct (create_document "canvasevent" ev (db w)) as [s|e]; [|done].
  by rewrite broadcast_live_run.
Qed.

Lemma create_document_canvasevent ev s :
  create_document "canvasevent" ev s =
  if available s
  then Ok {| canvasevent := canvasevent s ++ [stored s ev];
             note := note s;
             available := available s;
             clock := S (clock s) |}
  else Raise StoreError.
Proof. unfold create_document, stored. by destruct (available s). Qed.

(** C1: whatever a canvas connection of room [room] receives, the event
    that is validated has [room] as its room, whichever room the client
    wrote into the message; so has every document the handler adds to the
    store and every stroke it sends. A valid message is stored once and
    broadcast to the bucket of [room] with that same event. *)
Theorem canvas_event_has_connection_room (ws : WebSocket) (room : string)
    (data : JSON) (w : World) :
  let w' := (canvas_on_message ws room data w).2 in
  (forall ev, canvas_event_of data room = Ok ev -> ev_room ev = room) /\
  (exists docs atts,
      canvasevent (db w') = canvasevent (db w) ++ docs /\
      sends (net w') = sends (net w) ++ atts /\
      Forall (fun d => ev_room (doc_event d) = room) docs /\
      Forall (fun a => forall ev,
                  att_payload a = MStroke ev -> ev_room ev = room) atts) /\
  (forall ev,
      canvas_event_of data room = Ok ev -> available (db w) = true ->
      canvasevent (db w') = canvasevent (db w) ++ [stored (db w) ev] /\
      sends (net w')
      = sends (net w)
        ++ (attempt w (MStroke ev) <$> members (manager w) "canvas" room)).
Proof.
  simpl. rewrite canvas_on_message_run. split; [|split].
  - intros ev. apply canvas_event_of_room.
  - destruct (canvas_event_of data room) as [ev|e] eqn:E.
    + rewrite create_document_canvasevent.
      destruct (available (db w)).
      * eexists _, _. simpl. split; [done|]. split; [done|].
        apply canvas_event_of_room in E. split.
        -- by repeat constructor.
        -- apply Forall_fmap, Forall_forall. intros x _ ev' [= <-]. done.
      * rewrite send_json_run. eexists [], _. simpl.
        rewrite app_nil_r. split; [done|]. split; [done|].
        split; [constructor|]. by repeat constructor.
    + rewrite send_json_run. eexists [], _. simpl.
      rewrite app_nil_r. split; [done|]. split; [done|].
      split; [constructor|]. by repeat constructor.
  - intros ev -> Hup. rewrite create_document_canvasevent, Hup. done.
Qed.

(** C2: a message that fails the validation of [CanvasEvent] is answered
    with one send, of an error, to the sender; nothing is stored, nothing
    is sent to anybody else, the registry is as it was; and when the answer
    went out the handler is back in its loop: it goes on with whatever
    comes next on the connection. *)
Theorem invalid_canvas_message_answers_sender_only (ws : WebSocket)
    (room : string) (data : JSON) (e : Exn) (w : World) :
  canvas_event_of data room = Raise e ->
  let w' := (canvas_on_message ws room data w).2 in
  db w' = db w /\
  manager w' = manager w /\
  failing (net w') = failing (net w) /\
  sends (net w') = sends (net w) ++ [attempt w (MErrorOf e) ws] /\
  (failing (net w) !! ws = None ->
     (canvas_on_message ws room data w).1 = Done tt /\
     att_delivered (attempt w (MErrorOf e) ws) = true /\
     forall rest,
       resume Canvas ws room (Recv data :: rest) w
       = resume Canvas ws room rest w').
Proof.
  intros Hbad. simpl. rewrite canvas_on_message_run, Hbad, send_json_run.
  simpl. do 4 (split; [done|]).
  intros Hlive. split; [by rewrite Hlive|]. split.
  - unfold attempt. simpl. by apply bool_decide_eq_true_2.
  - intros rest. unfold try_except_disconnect. simpl.
    rewrite bind_run, canvas_on_message_run, Hbad, send_json_run, Hlive.
    done.
Qed.

Lemma validate_float_loc loc loc' v f :
  validate_float loc v = inr f -> validate_float loc' v = inr f.
Proof.
  destruct v as [|b|z|g|s| |]; simpl; try done.
  - by destruct (float_of_int z).
  - by destruct (float_of_str s).
Qed.

Lemma check_range_inr loc lo hi f g :
  check_range loc lo hi f = inr g ->
  g = f /\ PrimFloat.leb lo f = true /\ PrimFloat.leb f hi = true.
Proof.
  unfold check_range.
  destruct (PrimFloat.leb f hi); simpl; [|done].
  destruct (PrimFloat.leb lo f); simpl; [|done].
  by intros [= <-].
Qed.

(** A size that is validated lies in the range of the field. *)
Lemma CanvasStroke_validate_size loc v st :
  CanvasStroke_validate loc v = inr st ->
  PrimFloat.leb 0.5 (stroke_size st) = true /\
  PrimFloat.leb (stroke_size st) 50 = true.
Proof.
  unfold CanvasStroke_validate. destruct v as [| | | | | |d]; try done.
  destruct (match dict_get "color" d with
            | Some a => validate_str (loc ++ [Key "color"]) a
            | None => inr "#ffffff"
            end) as [es|c]; [done|].
  destruct (match dict_get "size" d with
            | Some a =>
                match validate_float (loc ++ [Key "size"]) a with
                | inr f => check_range (loc ++ [Key "size"]) 0.5 50 f
                | inl es => inl es
                end
            | None => inr 2.0%float
            end) as [es|sz] eqn:Es; [done|].
  destruct (match dict_get "points" d with
            | Some a => validate_point_list (loc ++ [Key "points"]) a
            | None => inr []
            end) as [es|ps]; [done|].
  intros [= <-]. simpl.
  destruct (dict_get "size" d) as [a|].
  - destruct (validate_float (loc ++ [Key "size"]) a) as [es|f]; [done|].
    apply check_range_inr in Es as (-> & Hlo & Hhi). done.
  - injection Es as <-. split; vm_compute; reflexivity.
Qed.

(** A stroke whose size is outside [0.5, 50] fails the validation. *)
Lemma size_out_of_range_is_invalid room d s v f :
  dict_get "stroke" d = Some (JObj s) ->
  dict_get "size" s = Some v ->
  validate_float [] v = inr f ->
  PrimFloat.leb 0.5 f && PrimFloat.leb f 50 = false ->
  exists es, canvas_event_of (JObj d) room = Raise (ValidationError es).
Proof.
  intros Hs Hv Hf Hout. unfold canvas_event_of.
  destruct (CanvasEvent_validate (dict_set "room" (JStr room) d))
    as [es|ev] eqn:E; [by eexists|].
  exfalso. unfold CanvasEvent_validate in E.
  rewrite dict_get_set_ne, Hs in E by done.
  destruct (CanvasStroke_validate [Key "stroke"] (JObj s)) as [es|st] eqn:Est.
  { repeat case_match; simplify_eq. }
  unfold CanvasStroke_validate in Est. rewrite Hv in Est.
  rewrite (validate_float_loc [] _ v f Hf) in Est.
  unfold check_range in Est.
  destruct (PrimFloat.leb 0.5 f), (PrimFloat.leb f 50); simpl in *;
    try done; repeat case_match; simplify_eq.
Qed.

End CanvasSession.

(* ===================================================================== *)
(** * The note of a room in the store *)

Lemma set_first_content_found room content docs d0 :
  head (filter (fun d => note_room d = room) docs) = Some d0 ->
  head (filter (fun d => note_room d = room)
          (set_first_content room content docs))
  = Some {| note_room := room; note_content := Some content |}.
Proof.
  induction docs as [|d rest IH]; simpl; [done|].
  rewrite filter_cons. case_decide as Hd.
  - intros _. rewrite filter_cons_True by done. simpl. by rewrite Hd.
  - intros Hh. rewrite filter_cons_False by done. by apply IH.
Qed.

Lemma set_first_content_other room room' content docs :
  room' ≠ room ->
  filter (fun d => note_room d = room') (set_first_content room content docs)
  = filter (fun d => note_room d = room') docs.
Proof.
  intros Hne. induction docs as [|d rest IH]; simpl; [done|].
  case_decide as Hd.
  - rewrite !filter_cons_False; [done| |]; simpl; congruence.
  - rewrite !filter_cons, IH. done.
Qed.

Lemma note_update_one_run room content s :
  available s = true ->
  exists s',
    note_update_one room content s = Ok s' /\
    note_find_one room s'
    = Ok (Some {| note_room := room; note_content := Some content |}) /\
    (forall room', room' ≠ room ->
       note_find_one room' s' = note_find_one room' s) /\
    canvasevent s' = canvasevent s /\
    available s' = true.
Proof.
  intros Hup. unfold note_update_one, note_find_one. rewrite Hup. simpl.
  eexists. split; [done|]. simpl.
  destruct (head (filter (fun d => note_room d = room) (note s)))
    as [d0|] eqn:Eh.
  - split; [by erewrite set_first_content_found|].
    split; [|done]. intros room' Hne.
    by rewrite set_first_content_other.
  - apply head_None in Eh. split.
    + rewrite filter_app, Eh. simpl. by rewrite filter_cons_True.
    + split; [|done]. intros room' Hne.
      rewrite filter_app, filter_cons_False by (simpl; congruence).
      by rewrite filter_nil, app_nil_r.
Qed.

Lemma note_update_one_down room content s :
  available s = false -> note_update_one room content s = Raise StoreError.
Proof. intros Hdown. unfold note_update_one. by rewrite Hdown. Qed.

(* ===================================================================== *)
(** * The note session *)

Section NoteSession.
Context `{PyRuntime}.


(** The body of the loop of [ws_note], case by case. *)
Lemma note_on_message_run ws room data w :
  note_on_message ws room data w =
  if is_update data then
    let content := py_str (get_or_empty "content" data) in
    match note_update_one room content (db w) with
    | Raise e => (Raised e, w)
    | Ok s =>
        (Done tt,
         log_sends
           (attempt w (MUpdate content) <$> members (manager w) "note" room)
           {| manager := manager w; db := s; net := net w |})
    end
  else send_json ws (MError "Invalid payload") w.
Proof.
  unfold note_on_message. destruct (is_update data); [|done].
  rewrite bind_run. unfold store_call. simpl.
  destruct (note_update_one room (py_str (get_or_empty "content" data))
              (db w)) as [s|e]; [|done].
  by rewrite broadcast_run.
Qed.

Lemma appends_note_on_message ws room data :
  appends (note_on_message ws room data).
Proof.
  unfold note_on_message. destruct (is_update data).
  - apply appends_bind; [apply appends_store_call|].
    intros _. apply appends_broadcast.
  - apply appends_send_json.
Qed.

Lemma ws_note_run ws room inbox w :
  failing (net w) !! ws = None ->
  available (db w) = true ->
  exists found l,
    note_find_one room (db w) = Ok found /\
    sends (net (ws_note ws room inbox w).2)
    = sends (net w)
      ++ {| att_to := ws; att_payload := MInit (current_content found);
            att_delivered := true |} :: l.
Proof.
  intros Hlive Hup.
  assert (exists found, note_find_one room (db w) = Ok found) as [found Ef].
  { unfold note_find_one. rewrite Hup. by eexists. }
  exists found.
  unfold ws_note, connect. rewrite !bind_run.
  unfold accept. rewrite Hlive. unfold on_manager at 1. simpl.
  rewrite bind_run. unfold store_query. simpl. rewrite Ef.
  unfold try_except_disconnect. rewrite bind_run, send_json_run. simpl.
  rewrite Hlive.
  match goal with
  | |- context [while_receiving ?b inbox ?w2] =>
      destruct (appends_while_receiving b inbox
                  (appends_note_on_message ws room) w2) as [l Hl];
      destruct (while_receiving b inbox w2) as [[[]|e|] w3]
  end; simpl in *.
  - exists l. split; [done|]. rewrite Hl. simpl.
    rewrite <- app_assoc. simpl. unfold attempt. simpl.
    by rewrite bool_decide_eq_true_2.
  - exists l. split; [done|].
    destruct (is_disconnect e); simpl; rewrite Hl; simpl;
      rewrite <- app_assoc; simpl; unfold attempt; simpl;
      by rewrite bool_decide_eq_true_2.
  - exists l. split; [done|]. rewrite Hl. simpl.
    rewrite <- app_assoc. simpl. unfold attempt. simpl.
    by rewrite bool_decide_eq_true_2.
Qed.

(** C6: the first message that is sent on a note connection of room
    [room] is the [init] message with the content of the note that the
    store holds for [room] when the connection is opened: the content that
    the last write of the note stored, and the empty string when there is
    no note document for [room]. *)
Theorem note_connection_starts_with_init (ws : WebSocket) (room : string)
    (inbox : list Inbound) (w : World) :
  failing (net w) !! ws = None ->
  available (db w) = true ->
  sent_to ws w = [] ->
  exists found rest,
    note_find_one room (db w) = Ok found /\
    sent_to ws (ws_note ws room inbox w).2
    = {| att_to := ws;
         att_payload :=
           MInit match found with
                 | Some doc => default "" (note_content doc)
                 | None => ""
                 end;
         att_delivered := true |} :: rest /\
    (forall s content,
        note_update_one room content s = Ok (db w) ->
        found = Some {| note_room := room; note_content := Some content |}).
Proof.
  intros Hlive Hup Hfresh.
  destruct (ws_note_run ws room inbox w Hlive Hup) as (found & l & Ef & Hl).
  exists found, (filter (fun a => att_to a = ws) l).
  split; [done|]. split.
  - unfold sent_to in *. rewrite Hl, filter_app, Hfresh. simpl.
    by rewrite filter_cons_True.
  - intros s content Hw.
    assert (available s = true) as Hs.
    { unfold note_update_one in Hw. by destruct (available s). }
    destruct (note_update_one_run room content s Hs)
      as (s' & Es' & Hfind & _).
    rewrite Hw in Es'. injection Es' as <-. congruence.
Qed.

(** The body of the loop of [ws_note] among other tasks, case by case. *)
Lemma note_on_message_live_run ws room data others w :
  note_on_message_live ws room data others w =
  if is_update data then
    let content := py_str (get_or_empty "content" data) in
    match note_update_one room content (db w) with
    | Raise e => (Raised e, w)
    | Ok s =>
        (Done tt,
         (broadcast_live (MUpdate content) room "note" others
            {| manager := manager w; db := s; net := net w |}).2)
    end
  else send_json ws (MError "Invalid payload") w.
Proof.
  unfold note_on_message_live. destruct (is_update data); [|done].
  rewrite bind_run. unfold store_call. simpl.
  destruct (note_update_one room (py_str (get_or_empty "content" data))
              (db w)) as [s|e]; [|done].
  by rewrite broadcast_live_run.
Qed.


End NoteSession.

(** C7: an update is stored and handed to [broadcast] for the note bucket
    of the room, but it does not reach every handle of the bucket. Three
    websockets are in the bucket, the first has gone away; the second sends
    an update. While the send to the first is suspended, the handler of the
    first deregisters it; the list moves up under the position of the loop,
    and the sender gets no update, though it is in the bucket before and
    after. Left alone, the same broadcast tries all three. *)
Theorem note_update_misses_a_member_when_another_leaves :
  let w := lobby_of_three "note" in
  let data := JObj [("type", JStr "update"); ("content", JStr "hi")] in
  let alone := @note_on_message_live example_runtime 2 "lobby" data [] w in
  let r := @note_on_message_live example_runtime 2 "lobby" data
             [[OtherDisconnects 1 "lobby" "note"]] w in
  members (manager w) "note" "lobby" = [1; 2; 3] /\
  att_to <$> sends (net alone.2) = [1; 2; 3] /\
  r.1 = Done tt /\
  note (db r.2) = [{| note_room := "lobby"; note_content := Some "hi" |}] /\
  members (manager r.2) "note" "lobby" = [2; 3] /\
  sends (net r.2)
  = [{| att_to := 1; att_payload := MUpdate "hi"; att_delivered := false |};
     {| att_to := 3; att_payload := MUpdate "hi"; att_delivered := true |}].
Proof. vm_compute. repeat split. Qed.

(* ===================================================================== *)
(** * The canvas query *)

(** C8: [GET /api/canvas/{room}] returns at most 500 events, all of them
    of the room asked for; with the store up it returns 500 of the room
    when there are more, and all of them otherwise. *)
Theorem get_canvas_events_capped (room : string) (w : World) :
  (forall events w',
      get_canvas_events room w = (Done events, w') ->
      length events <= 500 /\
      Forall (fun e => ev_room (view_event e) = room) events) /\
  (available (db w) = true ->
   exists events,
     get_canvas_events room w = (Done events, w) /\
     length events
     = min 500
         (length (filter (fun d => ev_room (doc_event d) = room)
                    (canvasevent (db w))))).
Proof.
  assert (forall n, n - (n - 500) = min 500 n) as Hmin by lia.
  unfold get_canvas_events. rewrite bind_run.
  unfold store_query, get_documents. simpl.
  destruct (available (db w)); simpl.
  - split.
    + intros events w' [= <- <-]. rewrite length_fmap, length_drop. split.
      * rewrite Hmin. apply Nat.le_min_l.
      * apply Forall_fmap, Forall_forall. intros e He. simpl.
        apply subseteq_drop in He.
        by apply list_elem_of_filter in He as [He _].
    + intros _. eexists. split; [done|].
      rewrite length_fmap, length_drop. apply Hmin.
  - split; [intros events w' [=] | done].
Qed.

(** Six hundred strokes in a room: the query returns five hundred. *)
Example canvas_query_of_a_long_log :
  let ev := {| ev_stroke := {| stroke_color := "#ffffff";
                                stroke_size := 2.0;
                                stroke_points := [] |};
               ev_user_id := None; ev_room := "lobby" |} in
  let w := {| manager := ConnectionManager_init;
              db := {| canvasevent := replicate 600 (stored empty_store ev);
                       note := []; available := true; clock := 600 |};
              net := {| failing := ∅; sends := [] |} |} in
  (fun r => match r with Done events => length events | _ => 0 end)
    (get_canvas_events "lobby" w).1 = 500.
Proof. vm_compute. reflexivity. Qed.

(* ===================================================================== *)
(** * A store that fails *)

Section StoreFailure.
Context `{PyRuntime}.

(** In [ws_canvas] the call of the store is inside the [try]: a failure
    of the store is answered with an error, and the loop goes on. *)
Lemma canvas_store_failure_is_answered ws room data ev w rest :
  canvas_event_of data room = Ok ev ->
  available (db w) = false ->
  failing (net w) !! ws = None ->
  resume Canvas ws room (Recv data :: rest) w
  = resume Canvas ws room rest
      (log_sends [attempt w (MErrorOf StoreError) ws] w).
Proof.
  intros Hev Hdown Hlive. simpl. unfold try_except_disconnect. simpl.
  rewrite bind_run, canvas_on_message_run, Hev.
  rewrite create_document_canvasevent, Hdown, send_json_run, Hlive. done.
Qed.

(** In [ws_note] it is not: a failure of the store leaves the handler as
    an exception. Nothing is sent to the sender, what arrives later on the
    connection is never read, and the registry keeps the websocket. *)
Lemma note_store_failure_escapes ws room data w rest :
  is_update data = true ->
  available (db w) = false ->
  resume Notes ws room (Recv data :: rest) w = (Raised StoreError, w).
Proof.
  intros Hupd Hdown. simpl. unfold try_except_disconnect. simpl.
  rewrite bind_run, note_on_message_run, Hupd. simpl.
  rewrite note_update_one_down by done. done.
Qed.

End StoreFailure.

(** C4, on a note connection whose store is down: the update is not
    answered with an error and the handler does not stay in its loop; the
    exception ends it, with its websocket still registered. The same
    failure on a canvas connection is answered and the handler goes on. *)
Theorem note_store_failure_ends_session :
  let down := {| canvasevent := []; note := []; available := false;
                 clock := 0 |} in
  let update := JObj [("type", JStr "update"); ("content", JStr "hello")] in
  let w := {| manager := register 1 "lobby" "note" ConnectionManager_init;
              db := down;
              net := {| failing := ∅; sends := [] |} |} in
  let drawing := JObj [("stroke", JObj [])] in
  let w_canvas :=
    {| manager := register 1 "lobby" "canvas" ConnectionManager_init;
       db := down;
       net := {| failing := ∅; sends := [] |} |} in
  @resume example_runtime Notes 1 "lobby" [Recv update; Recv update] w
  = (Raised StoreError, w) /\
  @resume example_runtime Canvas 1 "lobby" [Recv drawing] w_canvas
  = (Pending,
     log_sends [ {| att_to := 1; att_payload := MErrorOf StoreError;
                    att_delivered := true |} ] w_canvas).
Proof. split; vm_compute; reflexivity. Qed.

(* ===================================================================== *)
(** * The handlers, one arrival at a time *)

Lemma while_receiving_app body inbox inbox' :
  (forall data, settles (body data)) ->
  forall w,
    while_receiving body (inbox ++ inbox') w =
    match while_receiving body inbox w with
    | (Pending, w') => while_receiving body inbox' w'
    | r => r
    end.
Proof.
  intros Hb.
  induction inbox as [|[data|e|] rest IH]; intros w; simpl;
    [done| |done..].
  rewrite !bind_run. specialize (Hb data w).
  destruct (body data w) as [[[]|e|] w1]; [apply IH|done..].
Qed.

Section Arrivals.
Context `{PyRuntime}.

Lemma settles_send_json ws message : settles (send_json ws message).
Proof.
  intros w. rewrite send_json_run. by destruct (failing (net w) !! ws).
Qed.

Lemma settles_canvas_on_message ws room data :
  settles (canvas_on_message ws room data).
Proof.
  intros w. rewrite canvas_on_message_run.
  destruct (canvas_event_of data room) as [ev|e];
    [destruct (create_document "canvasevent" ev (db w)); [done|]|];
    apply settles_send_json.
Qed.

Lemma settles_note_on_message ws room data :
  settles (note_on_message ws room data).
Proof.
  intros w. rewrite note_on_message_run.
  destruct (is_update data); simpl; [|apply settles_send_json].
  by destruct (note_update_one room (py_str (get_or_empty "content" data))
                 (db w)).
Qed.

(** A handler that is suspended takes up what arrives next from the world
    as it is then: running it on a longer inbox is running it on the
    shorter one and resuming it on the rest. *)
Lemma resume_app c ws room inbox inbox' w :
  resume c ws room (inbox ++ inbox') w =
  match resume c ws room inbox w with
  | (Pending, w') => resume c ws room inbox' w'
  | r => r
  end.
Proof.
  destruct c; simpl; unfold try_except_disconnect;
    (rewrite while_receiving_app;
     [|solve [apply settles_canvas_on_message
             |apply settles_note_on_message]]);
    match goal with
    | |- context [while_receiving ?b inbox w] =>
        destruct (while_receiving b inbox w) as [[[]|e|] w1]
    end; try done; by destruct (is_disconnect e).
Qed.

Lemma settles_connect ws room kind : settles (connect ws room kind).
Proof.
  intros w. unfold connect. rewrite bind_run. unfold accept.
  by destruct (failing (net w) !! ws).
Qed.

Lemma settles_store_query {A} (f : Store -> Result A) :
  settles (store_query f).
Proof. intros w. unfold store_query. by destruct (f (db w)). Qed.

Lemma handler_app c ws room inbox inbox' w :
  handler c ws room (inbox ++ inbox') w =
  match handler c ws room inbox w with
  | (Pending, w') => resume c ws room inbox' w'
  | r => r
  end.
Proof.
  destruct c; simpl.
  - unfold ws_canvas. rewrite !(bind_run (connect _ _ _)).
    pose proof (settles_connect ws room "canvas" w) as Hc.
    destruct (connect ws room "canvas" w) as [[[]|e|] w1]; [|done..].
    apply (resume_app Canvas).
  - unfold ws_note. rewrite !(bind_run (connect _ _ _)).
    pose proof (settles_connect ws room "note" w) as Hc.
    destruct (connect ws room "note" w) as [[[]|e|] w1]; [|done..].
    rewrite !(bind_run (store_query _)).
    pose proof (settles_store_query (note_find_one room) w1) as Hq.
    destruct (store_query (note_find_one room) w1) as [[cur|e|] w2];
      [|done..].
    unfold try_except_disconnect. rewrite !(bind_run (send_json _ _)).
    pose proof (settles_send_json ws (MInit (current_content cur)) w2)
      as Hs.
    destruct (send_json ws (MInit (current_content cur)) w2)
      as [[[]|e|] w3]; [| |done].
    + rewrite while_receiving_app by apply settles_note_on_message.
      destruct (while_receiving (note_on_message ws room) inbox w3)
        as [[[]|e|] w4]; try done.
      by destruct (is_disconnect e).
    + destruct (is_disconnect e); [|done].
      by unfold on_manager.
Qed.

End Arrivals.

(* ===================================================================== *)
(** * The theorems at work *)

(** A client on the "lobby" connection writes another room into its
    message: the event is stored under "lobby". *)
Lemma canvas_event_has_connection_room_witness :
  let data := JObj [("stroke", JObj []); ("room", JStr "elsewhere")] in
  let w := lobby_of_two "canvas" in
  @canvas_event_of example_runtime data "lobby" = Ok (default_event "lobby") /\
  canvasevent (db (@canvas_on_message example_runtime 1 "lobby" data w).2)
  = [stored empty_store (default_event "lobby")].
Proof.
  intros data w.
  assert (@canvas_event_of example_runtime data "lobby"
          = Ok (default_event "lobby")) as Hev by (vm_compute; reflexivity).
  split; [exact Hev|].
  pose proof (@canvas_event_has_connection_room example_runtime
                1 "lobby" data w) as Hthm.
  destruct Hthm as (_ & _ & Hvalid).
  destruct (Hvalid (default_event "lobby") Hev eq_refl) as [Hdocs _].
  exact Hdocs.
Defined.

(** A stroke of size 100 on the "lobby" connection: one error to the
    sender, nothing stored, and the handler waits for the next message. *)
Lemma invalid_canvas_message_answers_sender_only_witness :
  let data := JObj [("stroke", JObj [("size", JInt 100)])] in
  let e := ValidationError
             [{| err_loc := [Key "stroke"; Key "size"];
                 err_kind := less_than_equal |}] in
  let w := lobby_of_two "canvas" in
  let w' := (@canvas_on_message example_runtime 1 "lobby" data w).2 in
  @canvas_event_of example_runtime data "lobby" = Raise e /\
  db w' = db w /\
  sends (net w')
  = [{| att_to := 1; att_payload := MErrorOf e; att_delivered := true |}] /\
  @resume example_runtime Canvas 1 "lobby" [Recv data] w = (Pending, w').
Proof.
  intros data e w w'.
  assert (@canvas_event_of example_runtime data "lobby" = Raise e) as Hbad
    by (vm_compute; reflexivity).
  split; [exact Hbad|].
  pose proof (@invalid_canvas_message_answers_sender_only example_runtime
                1 "lobby" data e w Hbad) as Hthm.
  destruct Hthm as (Hdb & _ & _ & Hsends & Hopen).
  split; [exact Hdb|]. split; [exact Hsends|].
  destruct (Hopen eq_refl) as (_ & _ & Hrest).
  exact (Hrest []).
Defined.

(** Both members of a room deregister: the room has no entry left. *)
Lemma disconnect_deregisters_witness :
  let cm := manager (lobby_of_two "canvas") in
  _get_rooms "canvas" cm !! "lobby" = Some [1; 2] /\
  _get_rooms "canvas" (disconnect_all [2; 1] "lobby" "canvas" cm) !! "lobby"
  = None.
Proof.
  intros cm.
  assert (_get_rooms "canvas" cm !! "lobby" = Some [1; 2]) as Hb
    by (vm_compute; reflexivity).
  split; [exact Hb|].
  destruct (disconnect_deregisters cm 1 "lobby" "canvas")
    as (_ & _ & _ & _ & _ & Hall).
  apply (Hall [1; 2] [2; 1] Hb); [discriminate | apply Permutation_swap].
Defined.

(** A note connection to a room whose note reads "hello". *)
Lemma note_connection_starts_with_init_witness :
  let w := world_with_note "hello" in
  failing (net w) !! 1 = None /\
  available (db w) = true /\
  sent_to 1 w = [] /\
  exists rest,
    sent_to 1 (@ws_note example_runtime 1 "lobby" [] w).2
    = {| att_to := 1; att_payload := MInit "hello";
         att_delivered := true |} :: rest.
Proof.
  intros w.
  assert (failing (net w) !! 1 = None) as Hlive by reflexivity.
  assert (available (db w) = true) as Hup by reflexivity.
  assert (sent_to 1 w = []) as Hfresh by reflexivity.
  do 3 (split; [assumption|]).
  destruct (@note_connection_starts_with_init example_runtime
              1 "lobby" [] w Hlive Hup Hfresh)
    as (found & rest & Hfound & Hsent & _).
  assert (found = Some {| note_room := "lobby";
                          note_content := Some "hello" |}) as ->.
  { vm_compute in Hfound. congruence. }
  exists rest. exact Hsent.
Defined.


(** The query on a room with one stored stroke. *)
Lemma get_canvas_events_capped_witness :
  let w := (@canvas_on_message example_runtime 1 "lobby"
              (JObj [("stroke", JObj [])]) (lobby_of_two "canvas")).2 in
  available (db w) = true /\
  exists events,
    get_canvas_events "lobby" w = (Done events, w) /\ length events = 1.
Proof.
  intros w.
  assert (available (db w) = true) as Hup by reflexivity.
  split; [exact Hup|].
  destruct (get_canvas_events_capped "lobby" w) as [_ Hsome].
  destruct (Hsome Hup) as (events & Hrun & Hlen).
  exists events. split; [exact Hrun|].
  rewrite Hlen. vm_compute. reflexivity.
Defined.

(** The process after its first connection. *)
Lemma registry_one_bucket_witness :
  let sys :=
    {| world := (@ws_canvas example_runtime 7 "lobby" [] empty_world).2;
       sessions := <[7 := {| s_channel := Canvas; s_room := "lobby";
                             s_live := true |}]> ∅ |} in
  @reachable example_runtime sys /\
  in_bucket (manager (world sys)) "canvas" "lobby" 7 /\
  occurrences 7 (members (manager (world sys)) "canvas" "lobby") <= 1.
Proof.
  intros sys.
  assert (@reachable example_runtime sys) as Hreach.
  { apply (@reachable_step example_runtime
             {| world := empty_world; sessions := ∅ |}).
    - apply reachable_initial. split; reflexivity.
    - apply (@step_open example_runtime Canvas 7 "lobby"
               {| world := empty_world; sessions := ∅ |} Pending
               (@ws_canvas example_runtime 7 "lobby" [] empty_world).2);
        vm_compute; reflexivity. }
  split; [exact Hreach|]. split.
  - exists [7]. split; [vm_compute; reflexivity|].
    apply list_elem_of_here.
  - destruct (@registry_one_bucket example_runtime sys Hreach 7 "canvas")
      as [_ Honce].
    exact (Honce "lobby").
Defined.

(** C10, as it is written, fails: a message in the shape of the wire
    schema, which omits [points] and [size], is not accepted. It has no
    [stroke], which [CanvasEvent] requires; the sender gets an error and
    nothing is stored. *)
Lemma canvas_message_without_stroke_is_rejected :
  let fields := [("color", JStr "#ff0000"); ("user_id", JStr "u1")] in
  let w := lobby_of_two "canvas" in
  let w' := (@canvas_on_message example_runtime 1 "lobby" (JObj fields) w).2 in
  dict_get "points" fields = None /\
  dict_get "size" fields = None /\
  ¬ (exists ev,
        @canvas_event_of example_runtime (JObj fields) "lobby" = Ok ev) /\
  canvasevent (db w') = [] /\
  sends (net w')
  = [{| att_to := 1;
        att_payload :=
          MErrorOf (ValidationError
                      [{| err_loc := [Key "stroke"];
                          err_kind := missing |}]);
        att_delivered := true |}].
Proof.
  split; [reflexivity|]. split; [reflexivity|]. split.
  - intros [ev Hev]. vm_compute in Hev. discriminate.
  - split; vm_compute; reflexivity.
Qed.

(* ===================================================================== *)
(** * More on the registry *)

Lemma set_rooms_set_rooms kind rooms rooms' cm :
  set_rooms kind rooms (set_rooms kind rooms' cm) = set_rooms kind rooms cm.
Proof. unfold set_rooms. by case_decide. Qed.

(** [register], as one insertion. *)
Lemma register_as_insert ws room kind cm :
  register ws room kind cm
  = set_rooms kind
      (<[room := members cm kind room ++ [ws]]> (_get_rooms kind cm)) cm.
Proof.
  unfold register, members. f_equal. apply map_eq. intros i.
  destruct (_get_rooms kind cm !! room) as [b|] eqn:E; simpl;
    destruct (decide (i = room)) as [->|Hne].
  - by rewrite lookup_alter_eq, lookup_insert_eq, E.
  - by rewrite lookup_alter_ne, lookup_insert_ne.
  - by rewrite lookup_alter_eq, !lookup_insert_eq.
  - by rewrite lookup_alter_ne, !lookup_insert_ne.
Qed.

Lemma remove_first_app_last ws bucket :
  ws ∉ bucket -> remove_first ws (bucket ++ [ws]) = bucket.
Proof.
  induction bucket as [|y l IH]; simpl; intros Hn.
  - by rewrite decide_True.
  - apply not_elem_of_cons in Hn as [Hy Hl].
    rewrite decide_False by done. by rewrite IH.
Qed.

Lemma occurrences_app ws l1 l2 :
  occurrences ws (l1 ++ l2) = occurrences ws l1 + occurrences ws l2.
Proof. unfold occurrences. by rewrite filter_app, length_app. Qed.

(** X1: registering a websocket puts it at the end of the bucket of its
    room and kind, which is created when the room had none; the buckets of
    the other rooms and the dict of the other kind stay as they are.
    Nothing guards against a websocket that is in the bucket already: it
    is in it once more. *)
Theorem register_appends_to_bucket (cm : ConnectionManager) (ws : WebSocket)
    (room kind : string) :
  let cm' := register ws room kind cm in
  _get_rooms kind cm' !! room = Some (members cm kind room ++ [ws]) /\
  (forall room', room' ≠ room ->
     _get_rooms kind cm' !! room' = _get_rooms kind cm !! room') /\
  (forall kind', ¬ same_dict kind kind' ->
     _get_rooms kind' cm' = _get_rooms kind' cm) /\
  occurrences ws (members cm' kind room)
  = S (occurrences ws (members cm kind room)).
Proof.
  simpl. split; [apply register_lookup|]. split; [|split].
  - intros room' Hne. by apply register_lookup_ne.
  - intros kind' Hne. by apply register_other_dict.
  - unfold members at 1. rewrite register_lookup. simpl.
    rewrite occurrences_app, occurrences_cons, decide_True by done.
    unfold occurrences at 2. simpl. lia.
Qed.

Lemma disconnect_register cm ws room kind :
  ws ∉ members cm kind room ->
  _get_rooms kind cm !! room ≠ Some [] ->
  disconnect ws room kind (register ws room kind cm) = cm.
Proof.
  intros Hnotin Hne.
  rewrite disconnect_unfold, register_lookup.
  rewrite decide_True by (apply elem_of_app; right; apply list_elem_of_here).
  rewrite remove_first_app_last by done.
  rewrite register_as_insert, get_set_rooms, !set_rooms_set_rooms.
  unfold members in *.
  destruct (_get_rooms kind cm !! room) as [b|] eqn:E; simpl in *.
  - case_decide as Hb; [congruence|].
    rewrite insert_insert_eq, insert_id by done. apply set_get_rooms.
  - rewrite delete_insert_eq, delete_id by done. apply set_get_rooms.
Qed.

(** X2: deregistering a websocket right after it was registered gives the
    registry back as it was, when the websocket was not in the bucket
    before and the room did not have an empty bucket. *)
Theorem disconnect_undoes_register (cm : ConnectionManager) (ws : WebSocket)
    (room kind : string) :
  ws ∉ members cm kind room ->
  _get_rooms kind cm !! room ≠ Some [] ->
  disconnect ws room kind (register ws room kind cm) = cm.
Proof. apply disconnect_register. Qed.

(* ===================================================================== *)
(** * What a computation keeps *)

Section Respects.
Context (R : World -> World -> Prop) `{!Reflexive R, !Transitive R}.

Lemma respects_ret {A} (a : A) : respects R (ret a).
Proof. intros w. simpl. reflexivity. Qed.

Lemma respects_raise {A} e : respects R (@raise A e).
Proof. intros w. simpl. reflexivity. Qed.

Lemma respects_pending {A} : respects R (@pending A).
Proof. intros w. simpl. reflexivity. Qed.

Lemma respects_bind {A B} (m : M A) (k : A -> M B) :
  respects R m -> (forall a, respects R (k a)) -> respects R (bind m k).
Proof.
  intros Hm Hk w. rewrite bind_run. specialize (Hm w).
  destruct (m w) as [[a| |] w']; simpl in *; [|done..].
  etransitivity; [exact Hm | apply Hk].
Qed.

Lemma respects_try_except_disconnect {A} (body handler : M A) :
  respects R body -> respects R handler ->
  respects R (try_except_disconnect body handler).
Proof.
  intros Hm Hk w. unfold try_except_disconnect. specialize (Hm w).
  destruct (body w) as [[a|e|] w']; simpl in *; [done| |done].
  destruct (is_disconnect e); [|done].
  etransitivity; [exact Hm | apply Hk].
Qed.

Lemma respects_while_receiving body inbox :
  (forall data, respects R (body data)) ->
  respects R (while_receiving body inbox).
Proof.
  intros Hb. induction inbox as [|[data|e|] rest IH]; simpl.
  - apply respects_pending.
  - apply respects_bind; [apply Hb | intros _; apply IH].
  - apply respects_raise.
  - apply respects_raise.
Qed.

Lemma respects_store_query {A} (f : Store -> Result A) :
  respects R (store_query f).
Proof.
  intros w. unfold store_query. destruct (f (db w)); simpl; reflexivity.
Qed.

Lemma respects_accept ws : respects R (accept ws).
Proof.
  intros w. unfold accept.
  destruct (failing (net w) !! ws); simpl; reflexivity.
Qed.

Lemma respects_send_json ws message :
  allows_sends R -> respects R (send_json ws message).
Proof. intros Hl w. rewrite send_json_run. apply Hl. Qed.

Lemma respects_connect ws room kind :
  allows_registry R -> respects R (connect ws room kind).
Proof.
  intros Hm. unfold connect. apply respects_bind; [apply respects_accept|].
  intros _ w. apply Hm.
Qed.

Lemma respects_disconnect ws room kind :
  allows_registry R -> respects R (on_manager (disconnect ws room kind)).
Proof. intros Hm w. apply Hm. Qed.

Context `{PyRuntime}.

Lemma respects_canvas_on_message ws room data :
  allows_sends R -> allows_event R room ->
  respects R (canvas_on_message ws room data).
Proof.
  intros Hl He w. rewrite canvas_on_message_run.
  destruct (canvas_event_of data room) as [ev|e] eqn:Eev;
    [|by apply respects_send_json].
  destruct (create_document "canvasevent" ev (db w)) as [s|e] eqn:Es;
    [|by apply respects_send_json].
  simpl. etransitivity; [|apply Hl].
  apply (He w ev s); [|done]. by eapply canvas_event_of_room.
Qed.

Lemma respects_note_on_message ws room data :
  allows_sends R -> allows_note R room ->
  respects R (note_on_message ws room data).
Proof.
  intros Hl Hn w. rewrite note_on_message_run.
  destruct (is_update data); [|by apply respects_send_json].
  simpl.
  destruct (note_update_one room (py_str (get_or_empty "content" data))
              (db w)) as [s|e] eqn:Es; simpl; [|reflexivity].
  etransitivity; [|apply Hl]. by eapply Hn.
Qed.

Lemma respects_ws_canvas ws room inbox :
  allows_sends R -> allows_registry R -> allows_event R room ->
  respects R (ws_canvas ws room inbox).
Proof.
  intros Hl Hm He. unfold ws_canvas.
  apply respects_bind; [by apply respects_connect|]. intros _.
  apply respects_try_except_disconnect; [|by apply respects_disconnect].
  apply respects_while_receiving. intros data.
  by apply respects_canvas_on_message.
Qed.

Lemma respects_ws_note ws room inbox :
  allows_sends R -> allows_registry R -> allows_note R room ->
  respects R (ws_note ws room inbox).
Proof.
  intros Hl Hm Hn. unfold ws_note.
  apply respects_bind; [by apply respects_connect|]. intros _.
  apply respects_bind; [apply respects_store_query|]. intros current.
  apply respects_try_except_disconnect; [|by apply respects_disconnect].
  apply respects_bind; [by apply respects_send_json|]. intros _.
  apply respects_while_receiving. intros data.
  by apply respects_note_on_message.
Qed.

End Respects.

#[local] Instance same_conditions_refl : Reflexive same_conditions.
Proof. by intros w. Qed.

#[local] Instance same_conditions_trans : Transitive same_conditions.
Proof. intros w1 w2 w3 [? ?] [? ?]. split; congruence. Qed.

Lemma create_document_available collection ev s s' :
  create_document collection ev s = Ok s' -> available s' = available s.
Proof.
  unfold create_document. destruct (available s) eqn:E; simpl; [|done].
  case_decide; intros [= <-]; simpl; done.
Qed.

Lemma note_update_one_available room content s s' :
  note_update_one room content s = Ok s' -> available s' = available s.
Proof.
  unfold note_update_one. destruct (available s) eqn:E; simpl; [|done].
  intros [= <-]. done.
Qed.

Lemma same_conditions_sends : allows_sends same_conditions.
Proof. by intros w l. Qed.

Lemma same_conditions_registry : allows_registry same_conditions.
Proof. by intros w cm. Qed.

Lemma same_conditions_event room : allows_event same_conditions room.
Proof.
  intros w ev s _ Hs. split; [done|]. simpl.
  by eapply create_document_available.
Qed.

Lemma same_conditions_note room : allows_note same_conditions room.
Proof.
  intros w content s Hs. split; [done|]. simpl.
  by eapply note_update_one_available.
Qed.

(** A loop whose body always returns reads up to the first disconnect. *)
Lemma while_receiving_until_disconnect body (P : World -> Prop) msgs later :
  (forall data w, P w -> (body data w).1 = Done tt /\ P (body data w).2) ->
  forall w, P w ->
    (while_receiving body ((Recv <$> msgs) ++ Disconnect :: later) w).1
    = Raised WebSocketDisconnect.
Proof.
  intros Hb. induction msgs as [|data msgs IH]; intros w Hw; simpl; [done|].
  rewrite bind_run. destruct (Hb data w Hw) as [Hd Hp].
  destruct (body data w) as [o w1]. simpl in *. subst o. by apply IH.
Qed.

(** A frame on which [receive_json] raises ends the loop with that
    exception. *)
Lemma while_receiving_until_broken body (P : World -> Prop) msgs e later :
  (forall data w, P w -> (body data w).1 = Done tt /\ P (body data w).2) ->
  forall w, P w ->
    (while_receiving body ((Recv <$> msgs) ++ Broken e :: later) w).1
    = Raised e.
Proof.
  intros Hb. induction msgs as [|data msgs IH]; intros w Hw; simpl; [done|].
  rewrite bind_run. destruct (Hb data w Hw) as [Hd Hp].
  destruct (body data w) as [o w1]. simpl in *. subst o. by apply IH.
Qed.

(** What comes after a disconnect is never read. *)
Lemma while_receiving_after_disconnect body inbox later w :
  while_receiving body (inbox ++ Disconnect :: later) w
  = while_receiving body (inbox ++ [Disconnect]) w.
Proof.
  revert w. induction inbox as [|[data|e|] rest IH]; intros w; simpl;
    [done| |done..].
  rewrite !bind_run. destruct (body data w) as [[[]|e|] w1]; [|done..].
  apply IH.
Qed.

(* ===================================================================== *)
(** * Whole sessions *)

Section WholeSessions.
Context `{PyRuntime}.

Lemma canvas_on_message_done ws room data w :
  failing (net w) !! ws = None ->
  (canvas_on_message ws room data w).1 = Done tt.
Proof.
  intros Hlive. rewrite canvas_on_message_run.
  destruct (canvas_event_of data room) as [ev|e];
    [destruct (create_document "canvasevent" ev (db w)); [done|]|];
    by rewrite send_json_run, Hlive.
Qed.

Lemma note_on_message_done ws room data w :
  failing (net w) !! ws = None ->
  available (db w) = true ->
  (note_on_message ws room data w).1 = Done tt.
Proof.
  intros Hlive Hup. rewrite note_on_message_run.
  destruct (is_update data); [|by rewrite send_json_run, Hlive].
  simpl.
  by destruct (note_update_one_run room
                 (py_str (get_or_empty "content" data)) (db w) Hup)
    as (s & -> & _).
Qed.

(** X3: a connection whose [accept] raises leaves no trace: the handler
    ends with that exception, and registry, store and log of sends are as
    they were. *)
Theorem refused_connection_leaves_no_trace (c : Channel) (ws : WebSocket)
    (room : string) (inbox : list Inbound) (w : World) (e : Exn) :
  failing (net w) !! ws = Some e ->
  handler c ws room inbox w = (Raised e, w).
Proof.
  intros Hf. destruct c; simpl; unfold ws_canvas, ws_note, connect;
    rewrite !bind_run; unfold accept; by rewrite Hf.
Qed.

Lemma canvas_loop_until_disconnect ws room msgs later w :
  failing (net w) !! ws = None ->
  exists w2,
    while_receiving (canvas_on_message ws room)
      ((Recv <$> msgs) ++ Disconnect :: later) w
    = (Raised WebSocketDisconnect, w2) /\
    manager w2 = manager w.
Proof.
  intros Hlive.
  pose proof (while_receiving_until_disconnect (canvas_on_message ws room)
                (fun w0 => failing (net w0) !! ws = None) msgs later)
    as Hrun.
  pose proof (keeps_while_receiving (canvas_on_message ws room)
                ((Recv <$> msgs) ++ Disconnect :: later)
                (keeps_canvas_on_message ws room) w) as Hk.
  rewrite (surjective_pairing (while_receiving _ _ w)).
  eexists. split; [|exact Hk]. f_equal. apply Hrun; [|done].
  intros data w0 Hw0. split; [by apply canvas_on_message_done|].
  destruct (respects_canvas_on_message same_conditions ws room data
              same_conditions_sends (same_conditions_event room) w0)
    as [Hf _].
  by rewrite Hf.
Qed.

Lemma note_loop_until_disconnect ws room msgs later w :
  failing (net w) !! ws = None ->
  available (db w) = true ->
  exists w2,
    while_receiving (note_on_message ws room)
      ((Recv <$> msgs) ++ Disconnect :: later) w
    = (Raised WebSocketDisconnect, w2) /\
    manager w2 = manager w.
Proof.
  intros Hlive Hup.
  pose proof (while_receiving_until_disconnect (note_on_message ws room)
                (fun w0 => failing (net w0) !! ws = None /\
                           available (db w0) = true) msgs later)
    as Hrun.
  pose proof (keeps_while_receiving (note_on_message ws room)
                ((Recv <$> msgs) ++ Disconnect :: later)
                (keeps_note_on_message ws room) w) as Hk.
  rewrite (surjective_pairing (while_receiving _ _ w)).
  eexists. split; [|exact Hk]. f_equal. apply Hrun; [|done].
  intros data w0 [Hw0 Hu0]. split; [by apply note_on_message_done|].
  destruct (respects_note_on_message same_conditions ws room data
              same_conditions_sends (same_conditions_note room) w0)
    as [Hf Ha].
  by rewrite Hf, Ha.
Qed.

Lemma canvas_loop_until_broken ws room msgs e later w :
  failing (net w) !! ws = None ->
  exists w2,
    while_receiving (canvas_on_message ws room)
      ((Recv <$> msgs) ++ Broken e :: later) w
    = (Raised e, w2) /\
    manager w2 = manager w.
Proof.
  intros Hlive.
  pose proof (while_receiving_until_broken (canvas_on_message ws room)
                (fun w0 => failing (net w0) !! ws = None) msgs e later)
    as Hrun.
  pose proof (keeps_while_receiving (canvas_on_message ws room)
                ((Recv <$> msgs) ++ Broken e :: later)
                (keeps_canvas_on_message ws room) w) as Hk.
  rewrite (surjective_pairing (while_receiving _ _ w)).
  eexists. split; [|exact Hk]. f_equal. apply Hrun; [|done].
  intros data w0 Hw0. split; [by apply canvas_on_message_done|].
  destruct (respects_canvas_on_message same_conditions ws room data
              same_conditions_sends (same_conditions_event room) w0)
    as [Hf _].
  by rewrite Hf.
Qed.

Lemma note_loop_until_broken ws room msgs e later w :
  failing (net w) !! ws = None ->
  available (db w) = true ->
  exists w2,
    while_receiving (note_on_message ws room)
      ((Recv <$> msgs) ++ Broken e :: later) w
    = (Raised e, w2) /\
    manager w2 = manager w.
Proof.
  intros Hlive Hup.
  pose proof (while_receiving_until_broken (note_on_message ws room)
                (fun w0 => failing (net w0) !! ws = None /\
                           available (db w0) = true) msgs e later)
    as Hrun.
  pose proof (keeps_while_receiving (note_on_message ws room)
                ((Recv <$> msgs) ++ Broken e :: later)
                (keeps_note_on_message ws room) w) as Hk.
  rewrite (surjective_pairing (while_receiving _ _ w)).
  eexists. split; [|exact Hk]. f_equal. apply Hrun; [|done].
  intros data w0 [Hw0 Hu0]. split; [by apply note_on_message_done|].
  destruct (respects_note_on_message same_conditions ws room data
              same_conditions_sends (same_conditions_note room) w0)
    as [Hf Ha].
  by rewrite Hf, Ha.
Qed.

(** X4: a canvas session run with no other task in between, on a
    websocket that takes sends and is not yet in the canvas bucket of its
    room (which is not an empty list). Whatever the JSON messages before
    the disconnect are, valid or not, it runs to the disconnect, returns
    normally, reads nothing that comes after the disconnect, and leaves the
    registry as it found it. A frame on which [receive_json] raises
    anything but a disconnect (a text that is not JSON) ends the handler
    with that exception and the websocket still registered. *)
Theorem canvas_session_restores_registry (ws : WebSocket) (room : string)
    (msgs : list JSON) (later : list Inbound) (w : World) :
  failing (net w) !! ws = None ->
  ws ∉ members (manager w) "canvas" room ->
  _get_rooms "canvas" (manager w) !! room ≠ Some [] ->
  (ws_canvas ws room ((Recv <$> msgs) ++ Disconnect :: later) w).1 = Done tt /\
  manager (ws_canvas ws room ((Recv <$> msgs) ++ Disconnect :: later) w).2
  = manager w /\
  ws_canvas ws room ((Recv <$> msgs) ++ Disconnect :: later) w
  = ws_canvas ws room ((Recv <$> msgs) ++ [Disconnect]) w /\
  (forall e,
      is_disconnect e = false ->
      (ws_canvas ws room ((Recv <$> msgs) ++ Broken e :: later) w).1
      = Raised e /\
      manager (ws_canvas ws room ((Recv <$> msgs) ++ Broken e :: later) w).2
      = register ws room "canvas" (manager w)).
Proof.
  intros Hlive Hnotin Hne. split; [|split; [|split]]; cycle 3.
  { intros e He. unfold ws_canvas, connect. rewrite !bind_run.
    unfold accept. rewrite Hlive. unfold on_manager at 1 3.
    unfold try_except_disconnect.
    destruct (canvas_loop_until_broken ws room msgs e later
                {| manager := register ws room "canvas" (manager w);
                   db := db w; net := net w |} Hlive) as (w2 & -> & Hm).
    by rewrite He. }
  - unfold ws_canvas, connect. rewrite !bind_run. unfold accept.
    rewrite Hlive. unfold on_manager at 1, try_except_disconnect.
    destruct (canvas_loop_until_disconnect ws room msgs later
                {| manager := register ws room "canvas" (manager w);
                   db := db w; net := net w |} Hlive) as (w2 & -> & _).
    done.
  - unfold ws_canvas, connect. rewrite !bind_run. unfold accept.
    rewrite Hlive. unfold on_manager at 1, try_except_disconnect.
    destruct (canvas_loop_until_disconnect ws room msgs later
                {| manager := register ws room "canvas" (manager w);
                   db := db w; net := net w |} Hlive) as (w2 & -> & Hm).
    simpl. unfold on_manager. simpl. rewrite Hm. simpl.
    by apply disconnect_register.
  - unfold ws_canvas. rewrite !(bind_run (connect _ _ _)).
    destruct (connect ws room "canvas" w) as [[[]|e|] w1]; [|done..].
    unfold try_except_disconnect.
    by rewrite while_receiving_after_disconnect.
Qed.

(** X5: a note session run with no other task in between, on a websocket
    that takes sends and is not yet in the note bucket of its room (which
    is not an empty list), with the store up. Whatever the JSON messages
    before the disconnect are, it runs to the disconnect, returns normally,
    and leaves the registry as it found it. A frame on which
    [receive_json] raises anything but a disconnect (a text that is not
    JSON) ends the handler with that exception and the websocket still
    registered. *)
Theorem note_session_restores_registry (ws : WebSocket) (room : string)
    (msgs : list JSON) (later : list Inbound) (w : World) :
  failing (net w) !! ws = None ->
  available (db w) = true ->
  ws ∉ members (manager w) "note" room ->
  _get_rooms "note" (manager w) !! room ≠ Some [] ->
  (ws_note ws room ((Recv <$> msgs) ++ Disconnect :: later) w).1 = Done tt /\
  manager (ws_note ws room ((Recv <$> msgs) ++ Disconnect :: later) w).2
  = manager w /\
  (forall e,
      is_disconnect e = false ->
      (ws_note ws room ((Recv <$> msgs) ++ Broken e :: later) w).1
      = Raised e /\
      manager (ws_note ws room ((Recv <$> msgs) ++ Broken e :: later) w).2
      = register ws room "note" (manager w)).
Proof.
  intros Hlive Hup Hnotin Hne.
  assert (exists found, note_find_one room (db w) = Ok found) as [found Ef].
  { unfold note_find_one. rewrite Hup. by eexists. }
  match goal with
  | |- ?A /\ ?B /\ ?C =>
      assert C as HC; [|assert (A /\ B) as [HA HB]; [|done]]
  end.
  { intros e He. unfold ws_note, connect. rewrite !bind_run. unfold accept.
    rewrite Hlive. unfold on_manager at 1 3. simpl.
    rewrite !bind_run. unfold store_query. simpl. rewrite Ef.
    unfold try_except_disconnect. rewrite !bind_run, !send_json_run. simpl.
    rewrite Hlive.
    destruct (note_loop_until_broken ws room msgs e later
                (log_sends
                   [attempt
                      {| manager := register ws room "note" (manager w);
                         db := db w; net := net w |}
                      (MInit (current_content found)) ws]
                   {| manager := register ws room "note" (manager w);
                      db := db w; net := net w |}) Hlive Hup)
      as (w2 & -> & Hm).
    by rewrite He. }
  unfold ws_note, connect. rewrite !bind_run. unfold accept.
  rewrite Hlive. unfold on_manager at 1 3. simpl.
  rewrite !bind_run. unfold store_query. simpl. rewrite Ef.
  unfold try_except_disconnect. rewrite !bind_run, !send_json_run. simpl.
  rewrite Hlive.
  destruct (note_loop_until_disconnect ws room msgs later
              (log_sends
                 [attempt
                    {| manager := register ws room "note" (manager w);
                       db := db w; net := net w |}
                    (MInit (current_content found)) ws]
                 {| manager := register ws room "note" (manager w);
                    db := db w; net := net w |}) Hlive Hup)
    as (w2 & -> & Hm).
  simpl. unfold on_manager. simpl. rewrite Hm. simpl.
  split; [done|]. by apply disconnect_register.
Qed.

(** X6: when the read of the note at connect fails, [ws_note] ends with
    the exception of the store before it has sent anything, and its
    websocket stays in the note bucket of the room: the read is outside the
    [try] whose handler deregisters. *)
Theorem note_connect_with_store_down (ws : WebSocket) (room : string)
    (inbox : list Inbound) (w : World) :
  failing (net w) !! ws = None ->
  available (db w) = false ->
  ws_note ws room inbox w
  = (Raised StoreError,
     {| manager := register ws room "note" (manager w);
        db := db w; net := net w |}) /\
  ws ∈ members (manager (ws_note ws room inbox w).2) "note" room.
Proof.
  intros Hlive Hdown.
  assert (ws_note ws room inbox w
          = (Raised StoreError,
             {| manager := register ws room "note" (manager w);
                db := db w; net := net w |})) as Hrun.
  { unfold ws_note, connect. rewrite !bind_run. unfold accept.
    rewrite Hlive. unfold on_manager at 1. simpl.
    rewrite bind_run. unfold store_query, note_find_one. simpl.
    by rewrite Hdown. }
  split; [done|]. rewrite Hrun. simpl. unfold members.
  rewrite register_lookup. simpl.
  apply elem_of_app. right. apply list_elem_of_here.
Qed.

(** X7: when the send of the error reply itself raises, a
    [WebSocketDisconnect] ends the canvas session like a disconnect (the
    websocket is deregistered and the handler returns), and any other
    exception leaves the handler with the websocket still registered; in
    both cases nothing is stored. *)
Theorem canvas_error_reply_failure (ws : WebSocket) (room : string)
    (data : JSON) (e0 e : Exn) (rest : list Inbound) (w : World) :
  canvas_event_of data room = Raise e0 ->
  failing (net w) !! ws = Some e ->
  let w1 := log_sends [attempt w (MErrorOf e0) ws] w in
  att_delivered (attempt w (MErrorOf e0) ws) = false /\
  resume Canvas ws room (Recv data :: rest) w
  = if is_disconnect e
    then (Done tt,
          {| manager := disconnect ws room "canvas" (manager w);
             db := db w; net := net w1 |})
    else (Raised e, w1).
Proof.
  intros Hbad Hf. simpl. split.
  - unfold attempt. simpl. apply bool_decide_eq_false_2. congruence.
  - unfold try_except_disconnect. simpl.
    rewrite bind_run, canvas_on_message_run, Hbad, send_json_run, Hf.
    by destruct (is_disconnect e).
Qed.

End WholeSessions.

(* ===================================================================== *)
(** * Live sessions and their buckets *)

Lemma elem_of_remove_first_ne ws x bucket :
  x ≠ ws -> x ∈ bucket -> x ∈ remove_first ws bucket.
Proof.
  intros Hne Hx. apply occurrences_pos.
  rewrite occurrences_remove_first_ne by done. by apply occurrences_pos.
Qed.

Lemma member_register_self ws room kind cm :
  ws ∈ members (register ws room kind cm) kind room.
Proof.
  unfold members. rewrite register_lookup. simpl.
  apply elem_of_app. right. apply list_elem_of_here.
Qed.

Lemma member_register_keep ws room kind cm x kind' room' :
  x ∈ members cm kind' room' ->
  x ∈ members (register ws room kind cm) kind' room'.
Proof.
  unfold members. intros Hx.
  destruct (decide (same_dict kind kind')) as [Hs|Hs].
  - rewrite <- (get_rooms_same_dict kind kind') in * by done.
    destruct (decide (room' = room)) as [->|Hr].
    + rewrite register_lookup. simpl. apply elem_of_app. by left.
    + by rewrite register_lookup_ne.
  - by rewrite register_other_dict.
Qed.

Lemma member_disconnect_keep ws room kind cm x kind' room' :
  x ≠ ws ->
  x ∈ members cm kind' room' ->
  x ∈ members (disconnect ws room kind cm) kind' room'.
Proof.
  unfold members. intros Hne Hx.
  destruct (decide (same_dict kind kind')) as [Hs|Hs].
  - rewrite <- (get_rooms_same_dict kind kind') in * by done.
    destruct (decide (room' = room)) as [->|Hr].
    + destruct (_get_rooms kind cm !! room) as [b|] eqn:Eb; simpl in Hx.
      * destruct (decide (ws ∈ b)) as [Hin|Hin].
        -- rewrite (disconnect_lookup _ _ _ _ b) by done.
           pose proof (elem_of_remove_first_ne ws x b Hne Hx) as Hx'.
           case_decide as Hnil; [|done].
           rewrite Hnil in Hx'. by apply elem_of_nil in Hx'.
        -- rewrite disconnect_absent; [by rewrite Eb|].
           intros (b' & Eb' & Hb'). congruence.
      * by apply elem_of_nil in Hx.
    + by rewrite disconnect_lookup_ne.
  - by rewrite disconnect_other_dict.
Qed.

(** A [try] whose handler deregisters is pending only when its body is. *)
Lemma try_disconnect_pending (body : M unit) f w w' :
  try_except_disconnect body (on_manager f) w = (Pending, w') ->
  body w = (Pending, w').
Proof.
  unfold try_except_disconnect.
  destruct (body w) as [[[]|e|] w1]; try done.
  by destruct (is_disconnect e).
Qed.

Section LiveSessions.
Context `{PyRuntime}.

Lemma resume_pending c ws room inbox w w' :
  resume c ws room inbox w = (Pending, w') -> manager w' = manager w.
Proof.
  destruct c; simpl; intros Hp; apply try_disconnect_pending in Hp.
  - pose proof (keeps_while_receiving _ inbox
                  (keeps_canvas_on_message ws room) w) as Hk.
    by rewrite Hp in Hk.
  - pose proof (keeps_while_receiving _ inbox
                  (keeps_note_on_message ws room) w) as Hk.
    by rewrite Hp in Hk.
Qed.

Lemma handler_pending c ws room inbox w w' :
  handler c ws room inbox w = (Pending, w') ->
  manager w' = register ws room (kind_of c) (manager w).
Proof.
  destruct c; simpl.
  - unfold ws_canvas, connect. rewrite !bind_run. unfold accept.
    destruct (failing (net w) !! ws); [done|].
    unfold on_manager at 1. intros Hp.
    by apply (resume_pending Canvas) in Hp.
  - unfold ws_note, connect. rewrite !bind_run. unfold accept.
    destruct (failing (net w) !! ws); [done|].
    unfold on_manager at 1. simpl. rewrite bind_run.
    match goal with
    | |- context [store_query ?f ?w2] =>
        pose proof (keeps_store_query f w2) as Hq;
        destruct (store_query f w2) as [[cur|e|] w3]
    end; [|done|by intros [= <-]].
    intros Hp. apply try_disconnect_pending in Hp.
    match type of Hp with
    | ?b _ = _ =>
        assert (keeps_manager b) as Hk
          by (apply keeps_bind; [auto with keeps|]; intros _;
              apply keeps_while_receiving, keeps_note_on_message)
    end.
    specialize (Hk w3). rewrite Hp in Hk. simpl in *. congruence.
Qed.

Lemma live_registered_step sys sys' :
  live_registered sys -> step sys sys' -> live_registered sys'.
Proof.
  unfold live_registered. intros Hlr Hstep.
  destruct Hstep as [c ws room sys o w' Hfresh Hrun
                    |ws s i sys o w' Hs Hlive Hrun
                    |sys w' Hm]; simpl; intros ws0 s0 Hs0 Hl0.
  - destruct (decide (ws0 = ws)) as [->|Hne].
    + rewrite lookup_insert_eq in Hs0. injection Hs0 as <-. simpl in *.
      destruct o; try done.
      apply handler_pending in Hrun. rewrite Hrun.
      apply member_register_self.
    + rewrite lookup_insert_ne in Hs0 by done.
      pose proof (handler_manager c ws room [] (world sys)) as Hm.
      rewrite Hrun in Hm. simpl in Hm.
      specialize (Hlr ws0 s0 Hs0 Hl0).
      destruct Hm as [-> | [-> | ->]].
      * done.
      * by apply member_register_keep.
      * by apply member_disconnect_keep, member_register_keep.
  - destruct (decide (ws0 = ws)) as [->|Hne].
    + rewrite lookup_insert_eq in Hs0. injection Hs0 as <-. simpl in *.
      destruct o; try done.
      apply resume_pending in Hrun. rewrite Hrun. by apply Hlr.
    + rewrite lookup_insert_ne in Hs0 by done.
      pose proof (resume_manager (s_channel s) ws (s_room s) [i]
                    (world sys)) as Hm.
      rewrite Hrun in Hm. simpl in Hm.
      specialize (Hlr ws0 s0 Hs0 Hl0).
      destruct Hm as [-> | ->]; [done|].
      by apply member_disconnect_keep.
  - rewrite Hm. by apply Hlr.
Qed.

Lemma live_registered_reachable sys : reachable sys -> live_registered sys.
Proof.
  induction 1 as [sys [Hm Hs]|sys sys' _ IH Hstep].
  - intros ws s Hws. rewrite Hs in Hws. by rewrite lookup_empty in Hws.
  - by eapply live_registered_step.
Qed.

(** The members of a canvas bucket are canvas sessions of the room, each
    once, and so for the note buckets. *)
Lemma bucket_of_sessions sys c room :
  reachable sys ->
  NoDup (members (manager (world sys)) (kind_of c) room) /\
  forall ws,
    ws ∈ members (manager (world sys)) (kind_of c) room ->
    exists s, sessions sys !! ws = Some s /\
              s_channel s = c /\ s_room s = room.
Proof.
  intros Hreach. pose proof (registry_inv_reachable sys Hreach) as Hinv.
  unfold members.
  destruct (_get_rooms (kind_of c) (manager (world sys)) !! room)
    as [b|] eqn:Eb; simpl.
  - destruct (Hinv _ _ _ Eb) as [Hnd Hin]. split; [done|].
    intros ws Hws. destruct (Hin ws Hws) as (s & Es & Hr & Hk).
    exists s. split; [done|]. split; [|done].
    unfold same_dict in Hk. destruct c, (s_channel s); simpl in *;
      try done; destruct Hk as [H1 H2]; try (by specialize (H1 eq_refl));
      by specialize (H2 eq_refl).
  - split; [constructor|]. intros ws Hws. by apply elem_of_nil in Hws.
Qed.

Lemma occurrences_once ws bucket :
  NoDup bucket -> ws ∈ bucket -> occurrences ws bucket = 1.
Proof.
  intros Hnd Hin. pose proof (occurrences_NoDup ws bucket Hnd).
  apply occurrences_pos in Hin. lia.
Qed.

(** X8: in every state the handlers reach, the websocket of a session
    whose handler is in its loop is in the bucket of the session's room and
    kind, exactly once. *)
Theorem live_sessions_are_registered (sys : System) (ws : WebSocket)
    (s : Session) :
  reachable sys ->
  sessions sys !! ws = Some s ->
  s_live s = true ->
  occurrences ws
    (members (manager (world sys)) (kind_of (s_channel s)) (s_room s)) = 1.
Proof.
  intros Hreach Hs Hlive. apply occurrences_once.
  - by apply bucket_of_sessions.
  - by apply (live_registered_reachable sys Hreach).
Qed.

(** X9: in every state the handlers reach, a valid stroke that arrives on
    a live canvas connection, with the store up, is stored; and when the
    other tasks that run during the sends of its broadcast leave the canvas
    bucket of the room alone, one stroke message is sent to each member of
    that bucket, in its order. The members are the canvas sessions of the
    room, each live one of them once, the sender among them. *)
Theorem undisturbed_stroke_reaches_every_live_session (sys : System)
    (ws : WebSocket) (s : Session) (data : JSON) (ev : CanvasEvent)
    (others : list (list Other)) :
  reachable sys ->
  sessions sys !! ws = Some s ->
  s_live s = true ->
  s_channel s = Canvas ->
  canvas_event_of data (s_room s) = Ok ev ->
  available (db (world sys)) = true ->
  Forall (Forall (leaves_bucket (s_room s) "canvas")) others ->
  let w := world sys in
  let bucket := members (manager w) "canvas" (s_room s) in
  let r := canvas_on_message_live ws (s_room s) data others w in
  r.1 = Done tt /\
  canvasevent (db r.2) = canvasevent (db w) ++ [stored (db w) ev] /\
  (exists atts,
      sends (net r.2) = sends (net w) ++ atts /\
      att_to <$> atts = bucket /\
      Forall (fun a => att_payload a = MStroke ev) atts) /\
  (forall ws2 s2,
      sessions sys !! ws2 = Some s2 -> s_live s2 = true ->
      s_channel s2 = Canvas -> s_room s2 = s_room s ->
      occurrences ws2 bucket = 1) /\
  occurrences ws bucket = 1 /\
  (forall ws2, ws2 ∈ bucket ->
     exists s2, sessions sys !! ws2 = Some s2 /\
                s_channel s2 = Canvas /\ s_room s2 = s_room s).
Proof.
  intros Hreach Hs Hlive Hc Hev Hup Hothers. simpl.
  pose proof (bucket_of_sessions sys Canvas (s_room s) Hreach)
    as [Hnd Hmem].
  pose proof (live_registered_reachable sys Hreach) as Hlr.
  assert (forall ws2 s2,
             sessions sys !! ws2 = Some s2 -> s_live s2 = true ->
             s_channel s2 = Canvas -> s_room s2 = s_room s ->
             occurrences ws2
               (members (manager (world sys)) "canvas" (s_room s)) = 1)
    as Hall.
  { intros ws2 s2 Hs2 Hl2 Hc2 Hr2. apply occurrences_once; [done|].
    specialize (Hlr ws2 s2 Hs2 Hl2). by rewrite Hc2, Hr2 in Hlr. }
  rewrite canvas_on_message_live_run, Hev, create_document_canvasevent, Hup.
  simpl. unfold broadcast_live. simpl.
  match goal with
  | |- context [broadcast_from ?m ?r ?k others 0 ?it ?w2] =>
      destruct (broadcast_from_returns m r k others 0 it w2) as [_ Hdb];
      destruct (broadcast_from_undisturbed m r k others 0 w2 Hothers)
        as (atts & Hsends & Hto & Hpay)
  end.
  simpl in *. rewrite Hdb. simpl. split; [done|]. split; [done|].
  split; [|split; [done|split; [by apply (Hall ws s)|done]]].
  exists atts. by rewrite drop_0 in Hto.
Qed.

(** X10: in every state the handlers reach, an update that arrives on a
    live note connection, with the store up, replaces the note of the
    room; and when the other tasks that run during the sends of its
    broadcast leave the note bucket of the room alone, one update message
    is sent to each member of that bucket, in its order. The members are
    the note sessions of the room, each live one of them once, the sender
    among them. *)
Theorem undisturbed_update_reaches_every_live_session (sys : System)
    (ws : WebSocket) (s : Session) (data : JSON)
    (others : list (list Other)) :
  reachable sys ->
  sessions sys !! ws = Some s ->
  s_live s = true ->
  s_channel s = Notes ->
  is_update data = true ->
  available (db (world sys)) = true ->
  Forall (Forall (leaves_bucket (s_room s) "note")) others ->
  let w := world sys in
  let bucket := members (manager w) "note" (s_room s) in
  let content := py_str (get_or_empty "content" data) in
  let r := note_on_message_live ws (s_room s) data others w in
  r.1 = Done tt /\
  note_find_one (s_room s) (db r.2)
  = Ok (Some {| note_room := s_room s; note_content := Some content |}) /\
  (exists atts,
      sends (net r.2) = sends (net w) ++ atts /\
      att_to <$> atts = bucket /\
      Forall (fun a => att_payload a = MUpdate content) atts) /\
  (forall ws2 s2,
      sessions sys !! ws2 = Some s2 -> s_live s2 = true ->
      s_channel s2 = Notes -> s_room s2 = s_room s ->
      occurrences ws2 bucket = 1) /\
  occurrences ws bucket = 1 /\
  (forall ws2, ws2 ∈ bucket ->
     exists s2, sessions sys !! ws2 = Some s2 /\
                s_channel s2 = Notes /\ s_room s2 = s_room s).
Proof.
  intros Hreach Hs Hlive Hc Hupd Hup Hothers. simpl.
  pose proof (bucket_of_sessions sys Notes (s_room s) Hreach)
    as [Hnd Hmem].
  pose proof (live_registered_reachable sys Hreach) as Hlr.
  assert (forall ws2 s2,
             sessions sys !! ws2 = Some s2 -> s_live s2 = true ->
             s_channel s2 = Notes -> s_room s2 = s_room s ->
             occurrences ws2
               (members (manager (world sys)) "note" (s_room s)) = 1)
    as Hall.
  { intros ws2 s2 Hs2 Hl2 Hc2 Hr2. apply occurrences_once; [done|].
    specialize (Hlr ws2 s2 Hs2 Hl2). by rewrite Hc2, Hr2 in Hlr. }
  rewrite note_on_message_live_run, Hupd. simpl.
  destruct (note_update_one_run (s_room s)
              (py_str (get_or_empty "content" data))
              (db (world sys)) Hup) as (s' & -> & Hfind & _).
  simpl. unfold broadcast_live. simpl.
  match goal with
  | |- context [broadcast_from ?m ?r ?k others 0 ?it ?w2] =>
      destruct (broadcast_from_returns m r k others 0 it w2) as [_ Hdb];
      destruct (broadcast_from_undisturbed m r k others 0 w2 Hothers)
        as (atts & Hsends & Hto & Hpay)
  end.
  simpl in *. rewrite Hdb. simpl. split; [done|]. split; [done|].
  split; [|split; [done|split; [by apply (Hall ws s)|done]]].
  exists atts. by rewrite drop_0 in Hto.
Qed.

End LiveSessions.

(* ===================================================================== *)
(** * What the sessions do to the store *)

#[local] Instance adds_events_of_refl room : Reflexive (adds_events_of room).
Proof. intros w. exists []. by rewrite app_nil_r. Qed.

#[local] Instance adds_events_of_trans room :
  Transitive (adds_events_of room).
Proof.
  intros w1 w2 w3 (n1 & E1 & F1) (n2 & E2 & F2). exists (n1 ++ n2).
  rewrite E2, E1, app_assoc. split; [done|]. by apply Forall_app.
Qed.

#[local] Instance keeps_events_refl : Reflexive keeps_events.
Proof. by intros w. Qed.

#[local] Instance keeps_events_trans : Transitive keeps_events.
Proof. unfold keeps_events. intros w1 w2 w3. congruence. Qed.

#[local] Instance keeps_notes_refl : Reflexive keeps_notes.
Proof. by intros w. Qed.

#[local] Instance keeps_notes_trans : Transitive keeps_notes.
Proof. unfold keeps_notes. intros w1 w2 w3. congruence. Qed.

#[local] Instance keeps_unique_notes_refl : Reflexive keeps_unique_notes.
Proof. intros w Hu. exact Hu. Qed.

#[local] Instance keeps_unique_notes_trans : Transitive keeps_unique_notes.
Proof. unfold keeps_unique_notes. intros w1 w2 w3. auto. Qed.

Lemma note_update_one_events room content s s' :
  note_update_one room content s = Ok s' -> canvasevent s' = canvasevent s.
Proof.
  unfold note_update_one. destruct (available s); simpl; [|done].
  by intros [= <-].
Qed.

Lemma create_document_notes collection ev s s' :
  create_document collection ev s = Ok s' -> note s' = note s.
Proof.
  unfold create_document. destruct (available s); simpl; [|done].
  case_decide; by intros [= <-].
Qed.

Lemma set_first_content_rooms room content docs :
  note_room <$> set_first_content room content docs = note_room <$> docs.
Proof.
  induction docs as [|d rest IH]; [done|]. cbn [set_first_content].
  case_decide; rewrite !fmap_cons; [done|]. by rewrite IH.
Qed.

Lemma no_note_of_room room docs :
  head (filter (fun d => note_room d = room) docs) = None ->
  room ∉ note_room <$> docs.
Proof.
  intros Hh Hin. apply head_None in Hh.
  apply list_elem_of_fmap in Hin as (d & Hd & Hin).
  assert (d ∈ filter (fun d => note_room d = room) docs) as Hf
    by (by apply list_elem_of_filter).
  rewrite Hh in Hf. by apply elem_of_nil in Hf.
Qed.

Lemma note_update_one_unique room content s s' :
  note_update_one room content s = Ok s' ->
  unique_notes s -> unique_notes s'.
Proof.
  unfold note_update_one, unique_notes.
  destruct (available s); simpl; [|done]. intros [= <-]. simpl.
  destruct (head (filter (fun d => note_room d = room) (note s)))
    as [d0|] eqn:Eh.
  - by rewrite set_first_content_rooms.
  - intros Hnd. rewrite fmap_app. apply NoDup_app. split; [done|].
    split; [|apply NoDup_singleton].
    intros x Hx Hx'. simpl in Hx'. apply list_elem_of_singleton in Hx'.
    subst x. by apply no_note_of_room in Eh.
Qed.

Lemma adds_events_sends room : allows_sends (adds_events_of room).
Proof. intros w l. exists []. simpl. by rewrite app_nil_r. Qed.

Lemma adds_events_registry room : allows_registry (adds_events_of room).
Proof. intros w cm. exists []. simpl. by rewrite app_nil_r. Qed.

Lemma adds_events_event room : allows_event (adds_events_of room) room.
Proof.
  intros w ev s Hr Hs. rewrite create_document_canvasevent in Hs.
  destruct (available (db w)); [|done]. injection Hs as <-.
  eexists. simpl. split; [done|]. by repeat constructor.
Qed.

Lemma keeps_notes_event room : allows_event keeps_notes room.
Proof. intros w ev s _ Hs. by eapply create_document_notes. Qed.

Lemma keeps_events_note room : allows_note keeps_events room.
Proof. intros w content s Hs. by eapply note_update_one_events. Qed.

Lemma keeps_unique_notes_note room : allows_note keeps_unique_notes room.
Proof.
  intros w content s Hs Hu. simpl.
  by apply (note_update_one_unique _ _ _ _ Hs).
Qed.

Section SessionsAndStore.
Context `{PyRuntime}.

(** X11: in [ws_canvas] a failure of the store is answered like a failed
    validation: one error to the sender, nothing stored, nothing
    broadcast, and the handler goes on with what arrives next. *)
Theorem canvas_store_failure_keeps_session (ws : WebSocket) (room : string)
    (data : JSON) (ev : CanvasEvent) (rest : list Inbound) (w : World) :
  canvas_event_of data room = Ok ev ->
  available (db w) = false ->
  failing (net w) !! ws = None ->
  let w' := (canvas_on_message ws room data w).2 in
  w' = log_sends [attempt w (MErrorOf StoreError) ws] w /\
  db w' = db w /\
  sends (net w') = sends (net w) ++ [attempt w (MErrorOf StoreError) ws] /\
  resume Canvas ws room (Recv data :: rest) w
  = resume Canvas ws room rest w'.
Proof.
  intros Hev Hdown Hlive. simpl.
  rewrite canvas_on_message_run, Hev, create_document_canvasevent, Hdown.
  rewrite send_json_run. simpl. do 3 (split; [done|]).
  unfold try_except_disconnect. simpl.
  rewrite bind_run, canvas_on_message_run, Hev.
  by rewrite create_document_canvasevent, Hdown, send_json_run, Hlive.
Qed.

(** X12: a session never removes or changes a stored event. A canvas
    session only appends events, all of its own room, and leaves the notes
    alone; a note session leaves the events alone. *)
Theorem sessions_only_append_events (c : Channel) (ws : WebSocket)
    (room : string) (inbox : list Inbound) (w : World) :
  let w' := (handler c ws room inbox w).2 in
  (exists new,
      canvasevent (db w') = canvasevent (db w) ++ new /\
      Forall (fun d => ev_room (doc_event d) = room) new /\
      (c = Notes -> new = [])) /\
  (c = Canvas -> note (db w') = note (db w)).
Proof.
  destruct c; simpl.
  - split.
    + destruct (respects_ws_canvas (adds_events_of room) ws room inbox
                  (adds_events_sends room) (adds_events_registry room)
                  (adds_events_event room) w) as (new & E & F).
      by exists new.
    + intros _.
      by apply (respects_ws_canvas keeps_notes ws room inbox
                  ltac:(done) ltac:(done) (keeps_notes_event room) w).
  - split; [|done]. exists []. rewrite app_nil_r. split; [|done].
    by apply (respects_ws_note keeps_events ws room inbox
                ltac:(done) ltac:(done) (keeps_events_note room) w).
Qed.

(** X13: the writes of the notes keep one document per room: if no room
    has two note documents, none has after a session of either kind or
    after [put_note]. *)
Theorem note_writes_keep_one_document_per_room (c : Channel)
    (ws : WebSocket) (room : string) (inbox : list Inbound)
    (content : string) (w : World) :
  unique_notes (db w) ->
  unique_notes (db (handler c ws room inbox w).2) /\
  unique_notes (db (put_note room content w).2).
Proof.
  intros Hu. split.
  - destruct c; simpl.
    + pose proof (respects_ws_canvas keeps_notes ws room inbox
                    ltac:(done) ltac:(done) (keeps_notes_event room) w)
        as Hk.
      unfold keeps_notes in Hk. unfold unique_notes. by rewrite Hk.
    + assert (allows_sends keeps_unique_notes) as Hl
        by (intros w0 l Hu0; exact Hu0).
      assert (allows_registry keeps_unique_notes) as Hm
        by (intros w0 cm Hu0; exact Hu0).
      exact (respects_ws_note keeps_unique_notes ws room inbox
               Hl Hm (keeps_unique_notes_note room) w Hu).
  - unfold put_note. rewrite bind_run. unfold store_call.
    destruct (note_update_one room content (db w)) as [s|e] eqn:Es;
      simpl; [|done].
    by eapply note_update_one_unique.
Qed.

(** X14: what [put_note] writes for a room is what [get_note] reads for
    it afterwards, with the store up; the notes of the other rooms read as
    before, and events, registry and transport are untouched. *)
Theorem put_then_get_note (room content : string) (w : World) :
  available (db w) = true ->
  let w' := (put_note room content w).2 in
  (put_note room content w).1 = Done "ok" /\
  get_note room w' = (Done (content, room), w') /\
  (forall room', room' ≠ room ->
     (get_note room' w').1 = (get_note room' w).1) /\
  canvasevent (db w') = canvasevent (db w) /\
  manager w' = manager w /\ net w' = net w.
Proof.
  intros Hup. simpl. unfold put_note, get_note.
  rewrite !bind_run. unfold store_call, store_query.
  destruct (note_update_one_run room content (db w) Hup)
    as (s' & -> & Hfind & Hother & Hev & _).
  simpl. rewrite Hfind. simpl. do 2 (split; [done|]).
  split; [|done]. intros room' Hne. rewrite !bind_run. simpl.
  rewrite (Hother room' Hne).
  by destruct (note_find_one room' (db w)) as [[d|]|e].
Qed.

(** X15: [get_note] changes nothing. For a room without note document it
    returns the empty content, and so for a document without content; with
    the store down it raises. *)
Theorem get_note_edge_cases (room : string) (w : World) :
  (get_note room w).2 = w /\
  (available (db w) = false -> (get_note room w).1 = Raised StoreError) /\
  (available (db w) = true ->
   room ∉ note_room <$> note (db w) ->
   (get_note room w).1 = Done ("", room)) /\
  (forall doc,
      note_find_one room (db w) = Ok (Some doc) ->
      note_content doc = None ->
      (get_note room w).1 = Done ("", room)).
Proof.
  unfold get_note. rewrite bind_run. unfold store_query.
  split; [by destruct (note_find_one room (db w)) as [[d|]|e]|].
  split; [|split].
  - intros Hdown. unfold note_find_one. by rewrite Hdown.
  - intros Hup Hno. unfold note_find_one. rewrite Hup. simpl.
    destruct (head (filter (fun d => note_room d = room) (note (db w))))
      as [d|] eqn:Eh; [|done].
    exfalso. apply Hno. apply head_Some_elem_of in Eh.
    apply list_elem_of_filter in Eh as [Hr Hin].
    apply list_elem_of_fmap. by exists d.
  - intros doc -> Hc. simpl. by rewrite Hc.
Qed.

(** X16: an update on a note connection is read back on both surfaces:
    [get_note] returns its content, and a connection opened next on the
    room gets it in its [init] message. *)
Theorem note_update_is_read_back (ws ws2 : WebSocket) (room : string)
    (data : JSON) (inbox : list Inbound) (w : World) :
  is_update data = true ->
  available (db w) = true ->
  let content := py_str (get_or_empty "content" data) in
  let w' := (note_on_message ws room data w).2 in
  get_note room w' = (Done (content, room), w') /\
  (failing (net w') !! ws2 = None ->
   sent_to ws2 w' = [] ->
   exists rest,
     sent_to ws2 (ws_note ws2 room inbox w').2
     = {| att_to := ws2; att_payload := MInit content;
          att_delivered := true |} :: rest).
Proof.
  intros Hupd Hup. simpl. rewrite note_on_message_run, Hupd. simpl.
  destruct (note_update_one_run room
              (py_str (get_or_empty "content" data)) (db w) Hup)
    as (s' & -> & Hfind & _ & _ & Hup').
  simpl. split.
  - unfold get_note. rewrite bind_run. unfold store_query. simpl.
    by rewrite Hfind.
  - intros Hlive Hfresh.
    match goal with
    | |- context [ws_note ws2 room inbox ?w1] =>
        destruct (ws_note_run ws2 room inbox w1 Hlive Hup')
          as (found & l & Ef & Hl)
    end.
    simpl in Ef. rewrite Hfind in Ef. injection Ef as <-.
    exists (filter (fun a => att_to a = ws2) l).
    unfold sent_to in *. rewrite Hl, filter_app, Hfresh. simpl.
    by rewrite filter_cons_True.
Qed.

(** X17: a valid stroke that was stored is what the canvas query of its
    room returns last, as long as the room holds fewer than 500 events
    before it. *)
Theorem stored_stroke_is_returned (ws : WebSocket) (room : string)
    (data : JSON) (ev : CanvasEvent) (w : World) :
  canvas_event_of data room = Ok ev ->
  available (db w) = true ->
  length (filter (fun d => ev_room (doc_event d) = room)
            (canvasevent (db w))) < 500 ->
  let w' := (canvas_on_message ws room data w).2 in
  exists events,
    get_canvas_events room w' = (Done events, w') /\
    last events = Some (convert_event (stored (db w) ev)) /\
    length events
    = S (length (filter (fun d => ev_room (doc_event d) = room)
                   (canvasevent (db w)))).
Proof.
  intros Hev Hup Hlen. simpl.
  rewrite canvas_on_message_run, Hev, create_document_canvasevent, Hup.
  simpl. unfold get_canvas_events. rewrite bind_run.
  unfold store_query, get_documents. simpl.
  eexists. split; [done|].
  rewrite filter_app, filter_cons_True
    by (simpl; by eapply canvas_event_of_room).
  rewrite filter_nil.
  match goal with
  | |- context [drop ?n _] =>
      replace n with 0 by (rewrite length_app; simpl; lia)
  end.
  rewrite drop_0, fmap_app. simpl. split; [apply last_snoc|].
  rewrite length_app, length_fmap. simpl. lia.
Qed.

End SessionsAndStore.

(* ===================================================================== *)
(** * What an accepted event says about the message *)

Section AcceptedEvents.
Context `{PyRuntime}.

Lemma validate_float_any_loc loc v f :
  validate_float loc v = inr f -> validate_float [] v = inr f.
Proof. apply validate_float_loc. Qed.

Lemma CanvasPoint_validate_inv loc v p :
  CanvasPoint_validate loc v = inr p ->
  exists d vx vy,
    v = JObj d /\
    dict_get "x" d = Some vx /\ validate_float [] vx = inr (pt_x p) /\
    dict_get "y" d = Some vy /\ validate_float [] vy = inr (pt_y p).
Proof.
  unfold CanvasPoint_validate. destruct v as [| | | | | |d]; try done.
  destruct (dict_get "x" d) as [vx|] eqn:Ex;
    destruct (dict_get "y" d) as [vy|] eqn:Ey;
    repeat case_match; try done.
  intros [= <-]. exists d, vx, vy. simpl.
  repeat split; try done; by eapply validate_float_any_loc.
Qed.

Lemma validate_points_inv loc items : forall i ps,
  validate_points loc i items = inr ps ->
  Forall2 (fun v p => exists loc', CanvasPoint_validate loc' v = inr p)
    items ps.
Proof.
  induction items as [|v rest IH]; intros i ps; simpl.
  - intros [= <-]. constructor.
  - destruct (CanvasPoint_validate (loc ++ [Idx i]) v) as [es|p] eqn:Ep;
      destruct (validate_points loc (S i) rest) as [es'|ps'] eqn:Eps;
      try done.
    intros [= <-]. constructor; [by eexists | by eapply IH].
Qed.

Lemma CanvasStroke_validate_inv loc s st :
  CanvasStroke_validate loc (JObj s) = inr st ->
  match dict_get "color" s with
  | Some v => v = JStr (stroke_color st)
  | None => stroke_color st = "#ffffff"
  end /\
  match dict_get "size" s with
  | Some v => validate_float [] v = inr (stroke_size st)
  | None => stroke_size st = 2.0%float
  end /\
  match dict_get "points" s with
  | Some v =>
      exists items,
        v = JArr items /\
        Forall2 (fun v p => exists loc', CanvasPoint_validate loc' v = inr p)
          items (stroke_points st)
  | None => stroke_points st = []
  end.
Proof.
  unfold CanvasStroke_validate.
  destruct (match dict_get "color" s with
            | Some a => validate_str (loc ++ [Key "color"]) a
            | None => inr "#ffffff"
            end) as [es|c] eqn:Ec;
    destruct (match dict_get "size" s with
              | Some a =>
                  match validate_float (loc ++ [Key "size"]) a with
                  | inr f => check_range (loc ++ [Key "size"]) 0.5 50 f
                  | inl es => inl es
                  end
              | None => inr 2.0%float
              end) as [es'|z] eqn:Ez;
    destruct (match dict_get "points" s with
              | Some a => validate_point_list (loc ++ [Key "points"]) a
              | None => inr []
              end) as [es''|ps] eqn:Ep; try done.
  intros [= <-]. simpl. split; [|split].
  - destruct (dict_get "color" s) as [v|]; [|by injection Ec as <-].
    destruct v; try done. simpl in Ec. by injection Ec as <-.
  - destruct (dict_get "size" s) as [v|]; [|by injection Ez as <-].
    destruct (validate_float (loc ++ [Key "size"]) v) as [?|f] eqn:Ef;
      [done|].
    apply check_range_inr in Ez as (-> & _ & _).
    by eapply validate_float_any_loc.
  - destruct (dict_get "points" s) as [v|]; [|by injection Ep as <-].
    unfold validate_point_list in Ep. destruct v; try done.
    eexists. split; [done|]. by eapply validate_points_inv.
Qed.

Lemma canvas_event_of_inv data room ev :
  canvas_event_of data room = Ok ev ->
  exists d s,
    data = JObj d /\
    dict_get "stroke" d = Some (JObj s) /\
    CanvasStroke_validate [Key "stroke"] (JObj s) = inr (ev_stroke ev) /\
    match dict_get "user_id" d with
    | Some JNull | None => ev_user_id ev = None
    | Some v => v = JStr (default "" (ev_user_id ev)) /\
                is_Some (ev_user_id ev)
    end.
Proof.
  unfold canvas_event_of. destruct data as [| | | | | |d]; try done.
  destruct (CanvasEvent_validate (dict_set "room" (JStr room) d))
    as [es|ev'] eqn:E; [done|]. intros [= <-].
  unfold CanvasEvent_validate in E.
  rewrite dict_get_set_eq, !dict_get_set_ne in E by done. simpl in E.
  destruct (dict_get "stroke" d) as [vs|] eqn:Es.
  - destruct (CanvasStroke_validate [Key "stroke"] vs) as [es|st] eqn:Est.
    { repeat case_match; simplify_eq. }
    assert (exists s, vs = JObj s) as [s ->].
    { unfold CanvasStroke_validate in Est.
      destruct vs; try done. by eexists. }
    exists d, s. split; [done|]. split; [done|].
    destruct (dict_get "user_id" d) as [vu|] eqn:Eu.
    + destruct vu; simpl in E; simplify_eq; simpl; eauto.
    + simpl in E. simplify_eq. done.
  - simpl in E. repeat case_match; simplify_eq.
Qed.

(** X18: the size of an accepted stroke lies in [0.5, 50]; it is the
    float of the size the message supplies, and 2.0 when the message
    supplies none. The color is the supplied string, or "#ffffff". *)
Theorem accepted_stroke_size_and_color (data : JSON) (room : string)
    (ev : CanvasEvent) :
  canvas_event_of data room = Ok ev ->
  PrimFloat.leb 0.5 (stroke_size (ev_stroke ev)) = true /\
  PrimFloat.leb (stroke_size (ev_stroke ev)) 50 = true /\
  exists d s,
    data = JObj d /\ dict_get "stroke" d = Some (JObj s) /\
    match dict_get "size" s with
    | Some v => validate_float [] v = inr (stroke_size (ev_stroke ev))
    | None => stroke_size (ev_stroke ev) = 2.0%float
    end /\
    match dict_get "color" s with
    | Some v => v = JStr (stroke_color (ev_stroke ev))
    | None => stroke_color (ev_stroke ev) = "#ffffff"
    end.
Proof.
  intros Hev.
  destruct (canvas_event_of_inv data room ev Hev)
    as (d & s & -> & Hs & Hst & _).
  destruct (CanvasStroke_validate_size _ _ _ Hst) as [Hlo Hhi].
  destruct (CanvasStroke_validate_inv _ _ _ Hst) as (Hc & Hz & _).
  do 2 (split; [done|]). by exists d, s.
Qed.

(** X19: an accepted stroke has the points of the message, one for one
    and in order: the list supplied is a JSON array, and each point has as
    coordinates the floats of the [x] and [y] of the object at its place.
    One item that is not such an object rejects the whole message. *)
Theorem accepted_stroke_points (data : JSON) (room : string)
    (ev : CanvasEvent) (d s : Dict) (v : JSON) :
  canvas_event_of data room = Ok ev ->
  data = JObj d ->
  dict_get "stroke" d = Some (JObj s) ->
  dict_get "points" s = Some v ->
  exists items,
    v = JArr items /\
    length (stroke_points (ev_stroke ev)) = length items /\
    forall k p,
      stroke_points (ev_stroke ev) !! k = Some p ->
      exists dk vx vy,
        items !! k = Some (JObj dk) /\
        dict_get "x" dk = Some vx /\ validate_float [] vx = inr (pt_x p) /\
        dict_get "y" dk = Some vy /\ validate_float [] vy = inr (pt_y p).
Proof.
  intros Hev -> Hs Hp.
  destruct (canvas_event_of_inv (JObj d) room ev Hev)
    as (d' & s' & [= <-] & Hs' & Hst & _).
  rewrite Hs in Hs'. injection Hs' as <-.
  destruct (CanvasStroke_validate_inv _ _ _ Hst) as (_ & _ & Hpts).
  rewrite Hp in Hpts. destruct Hpts as (items & -> & Hall).
  exists items. split; [done|]. split.
  - symmetry. by eapply Forall2_length.
  - intros k p Hk.
    destruct (Forall2_lookup_r _ _ _ _ _ Hall Hk) as (vk & Hvk & loc' & Hpt).
    destruct (CanvasPoint_validate_inv _ _ _ Hpt)
      as (dk & vx & vy & -> & Hx & Hfx & Hy & Hfy).
    by exists dk, vx, vy.
Qed.


End AcceptedEvents.

(* ===================================================================== *)
(** * Strokes that leave fields out *)

Section StrokeDefaults.
Context `{PyRuntime}.

(** What a [stroke] mapping leaves out takes the default of its field. *)
Lemma stroke_defaults_accepted (ws : WebSocket) (room : string)
    (d s : Dict) (w : World) :
  dict_get "stroke" d = Some (JObj s) ->
  dict_get "points" s = None ->
  (dict_get "color" s = None \/
   exists c, dict_get "color" s = Some (JStr c)) ->
  (dict_get "size" s = None \/
   exists v f, dict_get "size" s = Some v /\
               validate_float [] v = inr f /\
               PrimFloat.leb 0.5 f = true /\ PrimFloat.leb f 50 = true) ->
  (dict_get "user_id" d = None \/
   dict_get "user_id" d = Some JNull \/
   exists u, dict_get "user_id" d = Some (JStr u)) ->
  exists ev,
    canvas_event_of (JObj d) room = Ok ev /\
    stroke_points (ev_stroke ev) = [] /\
    (dict_get "color" s = None -> stroke_color (ev_stroke ev) = "#ffffff") /\
    (dict_get "size" s = None -> stroke_size (ev_stroke ev) = 2.0%float) /\
    ev_room ev = room /\
    (available (db w) = true ->
     let w' := (canvas_on_message ws room (JObj d) w).2 in
     canvasevent (db w') = canvasevent (db w) ++ [stored (db w) ev] /\
     sends (net w')
     = sends (net w)
       ++ (attempt w (MStroke ev) <$> members (manager w) "canvas" room)).
Proof.
  intros Hs Hp Hc Hz Hu.
  assert (exists st,
             CanvasStroke_validate [Key "stroke"] (JObj s) = inr st /\
             stroke_points st = [] /\
             (dict_get "color" s = None -> stroke_color st = "#ffffff") /\
             (dict_get "size" s = None -> stroke_size st = 2.0%float))
    as (st & Est & Hpts & Hcol & Hsz).
  { unfold CanvasStroke_validate. rewrite Hp.
    destruct Hc as [-> | [c ->]];
      destruct Hz as [-> | (v & f & -> & Hf & Hlo & Hhi)]; simpl;
      try rewrite (validate_float_loc [] _ v f Hf);
      unfold check_range; try rewrite Hlo, Hhi; simpl;
      eexists; (split; [done|]); simpl; done. }
  assert (exists u,
             match dict_get "user_id" (dict_set "room" (JStr room) d) with
             | Some a => validate_optional_str [Key "user_id"] a
             | None => inr None
             end = inr u) as [u Eu].
  { rewrite dict_get_set_ne by done.
    destruct Hu as [-> | [-> | [u ->]]]; by eexists. }
  exists {| ev_stroke := st; ev_user_id := u; ev_room := room |}.
  assert (canvas_event_of (JObj d) room
          = Ok {| ev_stroke := st; ev_user_id := u; ev_room := room |})
    as Eev.
  { unfold canvas_event_of, CanvasEvent_validate.
    rewrite dict_get_set_eq, Eu, dict_get_set_ne, Hs, Est by done. done. }
  do 5 (split; [done|]).
  intros Hup. simpl.
  rewrite canvas_on_message_run, Eev, create_document_canvasevent, Hup.
  done.
Qed.

(** A message without a [stroke] mapping makes no event: the sender gets
    the error, and nothing is stored or sent to anyone else. *)
Lemma no_stroke_mapping_is_rejected (ws : WebSocket) (room : string)
    (data : JSON) (w : World) :
  ¬ (exists d s, data = JObj d /\ dict_get "stroke" d = Some (JObj s)) ->
  exists e,
    canvas_event_of data room = Raise e /\
    let w' := (canvas_on_message ws room data w).2 in
    db w' = db w /\
    manager w' = manager w /\
    sends (net w') = sends (net w) ++ [attempt w (MErrorOf e) ws].
Proof.
  intros Hno.
  destruct (canvas_event_of data room) as [ev|e] eqn:E.
  - exfalso. apply Hno.
    destruct (canvas_event_of_inv data room ev E) as (d & s & -> & Hs & _).
    by exists d, s.
  - exists e. split; [done|]. simpl.
    by rewrite canvas_on_message_run, E, send_json_run.
Qed.

(** C10, as the code has it: a canvas message whose [stroke] mapping omits
    [points] is accepted when what it does supply is valid (a string for a
    color, a number within [0.5, 50] for a size, a string or null for a
    user id); the event that is stored and broadcast has the empty list of
    points, and the color "#ffffff" and the size 2.0 when these are
    omitted too. A message without a [stroke] mapping (a value that is not
    a mapping, or a mapping whose [stroke] is absent or is not a mapping,
    as in the flat shape of the wire schema) is rejected: the sender gets
    an error reply, and nothing is stored. *)
Theorem omitted_stroke_fields_take_defaults (ws : WebSocket) (room : string)
    (w : World) :
  (forall d s,
      dict_get "stroke" d = Some (JObj s) ->
      dict_get "points" s = None ->
      (dict_get "color" s = None \/
       exists c, dict_get "color" s = Some (JStr c)) ->
      (dict_get "size" s = None \/
       exists v f, dict_get "size" s = Some v /\
                   validate_float [] v = inr f /\
                   PrimFloat.leb 0.5 f = true /\
                   PrimFloat.leb f 50 = true) ->
      (dict_get "user_id" d = None \/
       dict_get "user_id" d = Some JNull \/
       exists u, dict_get "user_id" d = Some (JStr u)) ->
      exists ev,
        canvas_event_of (JObj d) room = Ok ev /\
        stroke_points (ev_stroke ev) = [] /\
        (dict_get "color" s = None ->
         stroke_color (ev_stroke ev) = "#ffffff") /\
        (dict_get "size" s = None ->
         stroke_size (ev_stroke ev) = 2.0%float) /\
        ev_room ev = room /\
        (available (db w) = true ->
         let w' := (canvas_on_message ws room (JObj d) w).2 in
         canvasevent (db w') = canvasevent (db w) ++ [stored (db w) ev] /\
         sends (net w')
         = sends (net w)
           ++ (attempt w (MStroke ev)
                 <$> members (manager w) "canvas" room))) /\
  (forall data,
      ¬ (exists d s,
            data = JObj d /\ dict_get "stroke" d = Some (JObj s)) ->
      exists e,
        canvas_event_of data room = Raise e /\
        let w' := (canvas_on_message ws room data w).2 in
        db w' = db w /\
        manager w' = manager w /\
        sends (net w') = sends (net w) ++ [attempt w (MErrorOf e) ws]).
Proof.
  split.
  - intros d s. apply stroke_defaults_accepted.
  - intros data. apply no_stroke_mapping_is_rejected.
Qed.

End StrokeDefaults.

(* ===================================================================== *)
(** * The diagnostic endpoint *)

(** X21: the [database_url] and [database_name] of the diagnostic
    response say whether the two environment variables are set, and
    nothing else: "✅ Set" when the variable has a value that is not the
    empty string, "❌ Not Set" when it is unset or empty. What the branch
    on [db] writes into them is overwritten: the two fields are the same
    with and without a database, and the response never carries the name
    of the database. *)
Theorem test_database_reports_environment (exn_text : Exn -> string)
    (db : option Database) (getenv : string -> option string) :
  let r := test_database exn_text db getenv in
  r_backend r = "✅ Running" /\
  (forall v, getenv "DATABASE_URL" = Some v -> v ≠ "" ->
             r_database_url r = Some "✅ Set") /\
  (getenv "DATABASE_URL" = Some "" -> r_database_url r = Some "❌ Not Set") /\
  (getenv "DATABASE_URL" = None -> r_database_url r = Some "❌ Not Set") /\
  (forall v, getenv "DATABASE_NAME" = Some v -> v ≠ "" ->
             r_database_name r = Some "✅ Set") /\
  (getenv "DATABASE_NAME" = Some "" ->
   r_database_name r = Some "❌ Not Set") /\
  (getenv "DATABASE_NAME" = None -> r_database_name r = Some "❌ Not Set") /\
  r_database_url r = r_database_url (test_database exn_text None getenv) /\
  r_database_name r = r_database_name (test_database exn_text None getenv).
Proof.
  unfold test_database.
  destruct db as [d|]; [destruct (list_collection_names d)|]; simpl;
    repeat split; try done;
    try (by intros ->); by intros [|c v] -> Hv.
Qed.

(** X22: the diagnostic response lists at most ten collections, the first
    ten the database names; it lists none when there is no database or
    when listing them raises. It says "Connected" exactly when there is a
    database, and "Connected & Working" exactly when listing succeeded. *)
Theorem test_database_reports_collections (exn_text : Exn -> string)
    (db : option Database) (getenv : string -> option string) :
  let r := test_database exn_text db getenv in
  length (r_collections r) <= 10 /\
  (forall d names,
      db = Some d -> list_collection_names d = Ok names ->
      r_collections r = take 10 names) /\
  (r_collections r ≠ [] ->
   exists d names, db = Some d /\ list_collection_names d = Ok names) /\
  (r_connection_status r = "Connected" <-> is_Some db) /\
  (r_database r = "✅ Connected & Working" <->
   exists d names, db = Some d /\ list_collection_names d = Ok names).
Proof.
  unfold test_database.
  destruct db as [d|]; [destruct (list_collection_names d) as [names|e] eqn:E|];
    simpl.
  - split; [rewrite length_take; lia|].
    split; [by intros d0 names0 [= <-]; rewrite E; intros [= <-]|].
    split; [by exists d, names|].
    split; [by split|]. split; [by exists d, names|done].
  - split; [lia|].
    split; [by intros d0 names0 [= <-]; rewrite E|].
    split; [done|]. split; [by split|].
    split; [discriminate|].
    intros (d0 & names0 & [= <-] & Hn). congruence.
  - split; [lia|]. split; [done|]. split; [done|].
    split; [split; [discriminate | by intros [? ?]]|].
    split; [discriminate | by intros (d0 & names0 & ? & _)].
Qed.

(* ===================================================================== *)
(** * More theorems at work *)

Lemma after_first_connection_reachable c :
  @reachable example_runtime (after_first_connection c).
Proof.
  apply (@reachable_step example_runtime
           {| world := empty_world; sessions := ∅ |}).
  - apply reachable_initial. split; reflexivity.
  - apply (@step_open example_runtime c 7 "lobby"
             {| world := empty_world; sessions := ∅ |} Pending
             (@handler example_runtime c 7 "lobby" [] empty_world).2).
    + reflexivity.
    + destruct c; vm_compute; reflexivity.
Qed.

Lemma after_second_connection_reachable c :
  @reachable example_runtime (after_second_connection c).
Proof.
  apply (@reachable_step example_runtime (after_first_connection c));
    [apply after_first_connection_reachable|].
  apply (@step_open example_runtime c 8 "lobby"
           (after_first_connection c) Pending
           (@handler example_runtime c 8 "lobby" []
              (world (after_first_connection c))).2).
  - reflexivity.
  - destruct c; vm_compute; reflexivity.
Qed.

Lemma lobby_of_two_members kind :
  kind = "canvas" \/ kind = "note" ->
  members (manager (lobby_of_two kind)) kind "lobby" = [1; 2].
Proof. intros [-> | ->]; vm_compute; reflexivity. Qed.

(** A third websocket joins the lobby of two. *)
Lemma register_appends_to_bucket_witness :
  let cm := manager (lobby_of_two "canvas") in
  _get_rooms "canvas" (register 3 "lobby" "canvas" cm) !! "lobby"
  = Some [1; 2; 3] /\
  _get_rooms "note" (register 3 "lobby" "canvas" cm) = _get_rooms "note" cm.
Proof.
  intros cm.
  destruct (register_appends_to_bucket cm 3 "lobby" "canvas")
    as (Hb & _ & Hk & _).
  split.
  - rewrite Hb. vm_compute. reflexivity.
  - apply Hk. unfold same_dict. intros [Hs _]. specialize (Hs eq_refl).
    discriminate.
Defined.

(** It joins and leaves. *)
Lemma disconnect_undoes_register_witness :
  let cm := manager (lobby_of_two "canvas") in
  (3 ∉ members cm "canvas" "lobby") /\
  (_get_rooms "canvas" cm !! "lobby" ≠ Some []) /\
  disconnect 3 "lobby" "canvas" (register 3 "lobby" "canvas" cm) = cm.
Proof.
  intros cm.
  assert (3 ∉ members cm "canvas" "lobby") as Hn
    by (apply (bool_decide_unpack _); vm_compute; exact I).
  assert (_get_rooms "canvas" cm !! "lobby" ≠ Some []) as He
    by (vm_compute; discriminate).
  split; [exact Hn|]. split; [exact He|].
  exact (disconnect_undoes_register cm 3 "lobby" "canvas" Hn He).
Defined.

(** A websocket that is closed before it is accepted. *)
Lemma refused_connection_leaves_no_trace_witness :
  let w := {| manager := ConnectionManager_init; db := empty_store;
              net := {| failing := {[1 := RuntimeError]}; sends := [] |} |} in
  failing (net w) !! 1 = Some RuntimeError /\
  @handler example_runtime Notes 1 "lobby" [Disconnect] w
  = (Raised RuntimeError, w).
Proof.
  intros w.
  assert (failing (net w) !! 1 = Some RuntimeError) as Hf
    by (vm_compute; reflexivity).
  split; [exact Hf|].
  exact (@refused_connection_leaves_no_trace example_runtime
           Notes 1 "lobby" [Disconnect] w RuntimeError Hf).
Defined.

(** A third drawer sends a stroke and a message that is no mapping, and
    goes. *)
Lemma canvas_session_restores_registry_witness :
  let w := lobby_of_two "canvas" in
  let msgs := [JObj [("stroke", JObj [])]; JNull] in
  (@ws_canvas example_runtime 3 "lobby"
     ((Recv <$> msgs) ++ Disconnect :: [Recv JNull]) w).1 = Done tt /\
  manager (@ws_canvas example_runtime 3 "lobby"
             ((Recv <$> msgs) ++ Disconnect :: [Recv JNull]) w).2
  = manager w /\
  (@ws_canvas example_runtime 3 "lobby"
     ((Recv <$> msgs) ++ Broken JSONDecodeError :: [Recv JNull]) w).1
  = Raised JSONDecodeError /\
  manager (@ws_canvas example_runtime 3 "lobby"
             ((Recv <$> msgs) ++ Broken JSONDecodeError :: [Recv JNull]) w).2
  = register 3 "lobby" "canvas" (manager w).
Proof.
  intros w msgs.
  assert (failing (net w) !! 3 = None) as Hl by reflexivity.
  assert (3 ∉ members (manager w) "canvas" "lobby") as Hn
    by (apply (bool_decide_unpack _); vm_compute; exact I).
  assert (_get_rooms "canvas" (manager w) !! "lobby" ≠ Some []) as He
    by (vm_compute; discriminate).
  destruct (@canvas_session_restores_registry example_runtime
              3 "lobby" msgs [Recv JNull] w Hl Hn He)
    as (Hd & Hm & _ & Hb).
  split; [exact Hd|]. split; [exact Hm|].
  exact (Hb JSONDecodeError eq_refl).
Defined.

(** A third writer sends an update and goes. *)
Lemma note_session_restores_registry_witness :
  let w := lobby_of_two "note" in
  let msgs := [JObj [("type", JStr "update"); ("content", JStr "hi")]] in
  (@ws_note example_runtime 3 "lobby"
     ((Recv <$> msgs) ++ Disconnect :: []) w).1 = Done tt /\
  manager (@ws_note example_runtime 3 "lobby"
             ((Recv <$> msgs) ++ Disconnect :: []) w).2
  = manager w /\
  (@ws_note example_runtime 3 "lobby"
     ((Recv <$> msgs) ++ Broken JSONDecodeError :: []) w).1
  = Raised JSONDecodeError /\
  manager (@ws_note example_runtime 3 "lobby"
             ((Recv <$> msgs) ++ Broken JSONDecodeError :: []) w).2
  = register 3 "lobby" "note" (manager w).
Proof.
  intros w msgs.
  assert (failing (net w) !! 3 = None) as Hl by reflexivity.
  assert (available (db w) = true) as Hu by reflexivity.
  assert (3 ∉ members (manager w) "note" "lobby") as Hn
    by (apply (bool_decide_unpack _); vm_compute; exact I).
  assert (_get_rooms "note" (manager w) !! "lobby" ≠ Some []) as He
    by (vm_compute; discriminate).
  destruct (@note_session_restores_registry example_runtime
              3 "lobby" msgs [] w Hl Hu Hn He) as (Hd & Hm & Hb).
  split; [exact Hd|]. split; [exact Hm|].
  exact (Hb JSONDecodeError eq_refl).
Defined.

(** A note connection while the store is down. *)
Lemma note_connect_with_store_down_witness :
  let w := {| manager := ConnectionManager_init;
              db := {| canvasevent := []; note := []; available := false;
                       clock := 0 |};
              net := {| failing := ∅; sends := [] |} |} in
  (@ws_note example_runtime 1 "lobby" [Disconnect] w).1 = Raised StoreError /\
  1 ∈ members (manager (@ws_note example_runtime 1 "lobby" [Disconnect] w).2)
        "note" "lobby".
Proof.
  intros w.
  destruct (@note_connect_with_store_down example_runtime
              1 "lobby" [Disconnect] w eq_refl eq_refl) as [Hr Hm].
  split; [by rewrite Hr | exact Hm].
Defined.

(** The sender is gone when the error reply is sent. *)
Lemma canvas_error_reply_failure_witness :
  let w := {| manager := manager (lobby_of_two "canvas"); db := empty_store;
              net := {| failing := {[1 := WebSocketDisconnect]};
                        sends := [] |} |} in
  (@resume example_runtime Canvas 1 "lobby" [Recv JNull] w).1 = Done tt /\
  members (manager (@resume example_runtime Canvas 1 "lobby" [Recv JNull] w).2)
    "canvas" "lobby" = [2].
Proof.
  intros w.
  assert (@canvas_event_of example_runtime JNull "lobby" = Raise TypeError)
    as Hbad by reflexivity.
  assert (failing (net w) !! 1 = Some WebSocketDisconnect) as Hf
    by (vm_compute; reflexivity).
  destruct (@canvas_error_reply_failure example_runtime
              1 "lobby" JNull TypeError WebSocketDisconnect [] w Hbad Hf)
    as [_ Hr].
  rewrite Hr. split; [reflexivity | vm_compute; reflexivity].
Defined.

(** The first connection is in its bucket. *)
Lemma live_sessions_are_registered_witness :
  let sys := after_first_connection Canvas in
  let s := {| s_channel := Canvas; s_room := "lobby"; s_live := true |} in
  sessions sys !! 7 = Some s /\
  occurrences 7 (members (manager (world sys)) "canvas" "lobby") = 1.
Proof.
  intros sys s.
  assert (sessions sys !! 7 = Some s) as Hs by (vm_compute; reflexivity).
  split; [exact Hs|].
  exact (@live_sessions_are_registered example_runtime sys 7 s
           (after_first_connection_reachable Canvas) Hs eq_refl).
Defined.

(** Two connections in a room; the first draws while a third registers in
    another room: both get the stroke. *)
Lemma undisturbed_stroke_reaches_every_live_session_witness :
  let sys := after_second_connection Canvas in
  let data := JObj [("stroke", JObj [])] in
  let others := [[OtherConnects 9 "attic" "canvas"]] in
  let r := @canvas_on_message_live example_runtime 7 "lobby" data others
             (world sys) in
  exists atts,
    sends (net r.2) = sends (net (world sys)) ++ atts /\
    att_to <$> atts = [7; 8].
Proof.
  intros sys data others r.
  pose (s := {| s_channel := Canvas; s_room := "lobby"; s_live := true |}).
  assert (sessions sys !! 7 = Some s) as Hs by (vm_compute; reflexivity).
  assert (@canvas_event_of example_runtime data (s_room s)
          = Ok (default_event "lobby")) as Hev by (vm_compute; reflexivity).
  assert (Forall (Forall (leaves_bucket (s_room s) "canvas")) others)
    as Hothers
    by (constructor; [constructor; [left; discriminate | constructor]
                     | constructor]).
  destruct (@undisturbed_stroke_reaches_every_live_session example_runtime
              sys 7 s data (default_event "lobby") others
              (after_second_connection_reachable Canvas) Hs eq_refl eq_refl
              Hev eq_refl Hothers)
    as (_ & _ & (atts & Hsends & Hto & _) & _).
  exists atts. split; [exact Hsends | exact Hto].
Defined.

(** Two connections in a room; the first writes while the peer of the
    second goes away: a send to each is tried. *)
Lemma undisturbed_update_reaches_every_live_session_witness :
  let sys := after_second_connection Notes in
  let data := JObj [("type", JStr "update"); ("content", JStr "hi")] in
  let others := [[OtherCloses 8 RuntimeError]] in
  let r := @note_on_message_live example_runtime 7 "lobby" data others
             (world sys) in
  exists atts,
    sends (net r.2) = sends (net (world sys)) ++ atts /\
    att_to <$> atts = [7; 8].
Proof.
  intros sys data others r.
  pose (s := {| s_channel := Notes; s_room := "lobby"; s_live := true |}).
  assert (sessions sys !! 7 = Some s) as Hs by (vm_compute; reflexivity).
  assert (Forall (Forall (leaves_bucket (s_room s) "note")) others)
    as Hothers
    by (constructor; [constructor; [exact I | constructor] | constructor]).
  destruct (@undisturbed_update_reaches_every_live_session example_runtime
              sys 7 s data others
              (after_second_connection_reachable Notes) Hs eq_refl eq_refl
              eq_refl eq_refl Hothers)
    as (_ & _ & (atts & Hsends & Hto & _) & _).
  exists atts. split; [exact Hsends | exact Hto].
Defined.

(** A valid stroke while the store is down. *)
Lemma canvas_store_failure_keeps_session_witness :
  let w := {| manager := manager (lobby_of_two "canvas");
              db := {| canvasevent := []; note := []; available := false;
                       clock := 0 |};
              net := {| failing := ∅; sends := [] |} |} in
  let data := JObj [("stroke", JObj [])] in
  sends (net (@canvas_on_message example_runtime 1 "lobby" data w).2)
  = [{| att_to := 1; att_payload := MErrorOf StoreError;
        att_delivered := true |}] /\
  @resume example_runtime Canvas 1 "lobby" [Recv data] w
  = (Pending, (@canvas_on_message example_runtime 1 "lobby" data w).2).
Proof.
  intros w data.
  assert (@canvas_event_of example_runtime data "lobby"
          = Ok (default_event "lobby")) as Hev by (vm_compute; reflexivity).
  destruct (@canvas_store_failure_keeps_session example_runtime
              1 "lobby" data (default_event "lobby") [] w Hev eq_refl eq_refl)
    as (_ & _ & Hs & Hr).
  split; [exact Hs | exact Hr].
Defined.

(** A note session with one update leaves the events as they are. *)
Lemma sessions_only_append_events_witness :
  let w := lobby_of_two "note" in
  let inbox := [Recv (JObj [("type", JStr "update")]); Disconnect] in
  canvasevent (db (@handler example_runtime Notes 3 "lobby" inbox w).2)
  = canvasevent (db w).
Proof.
  intros w inbox.
  destruct (@sessions_only_append_events example_runtime
              Notes 3 "lobby" inbox w) as [(new & E & _ & Hn) _].
  rewrite (Hn eq_refl), app_nil_r in E. exact E.
Defined.

(** A second write of the note of a room. *)
Lemma note_writes_keep_one_document_per_room_witness :
  let w := world_with_note "hello" in
  unique_notes (db w) /\
  unique_notes (db (put_note "lobby" "bye" w).2).
Proof.
  intros w.
  assert (unique_notes (db w)) as Hu
    by (apply (bool_decide_unpack _); vm_compute; exact I).
  split; [exact Hu|].
  destruct (@note_writes_keep_one_document_per_room example_runtime
              Notes 1 "lobby" [] "bye" w Hu) as [_ Hp].
  exact Hp.
Defined.

(** A note is put and read. *)
Lemma put_then_get_note_witness :
  let w' := (put_note "lobby" "hi" empty_world).2 in
  get_note "lobby" w' = (Done ("hi", "lobby"), w').
Proof.
  intros w'.
  destruct (put_then_get_note "lobby" "hi" empty_world eq_refl)
    as (_ & Hg & _).
  exact Hg.
Defined.

(** The note of a room that has none. *)
Lemma get_note_edge_cases_witness :
  (get_note "lobby" empty_world).1 = Done ("", "lobby").
Proof.
  destruct (get_note_edge_cases "lobby" empty_world) as (_ & _ & Hn & _).
  apply Hn; [reflexivity|].
  apply (bool_decide_unpack _). vm_compute. exact I.
Defined.

(** An update is read back over HTTP. *)
Lemma note_update_is_read_back_witness :
  let data := JObj [("type", JStr "update"); ("content", JStr "hi")] in
  let w' := (@note_on_message example_runtime 1 "lobby" data
               (lobby_of_two "note")).2 in
  get_note "lobby" w' = (Done ("hi", "lobby"), w').
Proof.
  intros data w'.
  destruct (@note_update_is_read_back example_runtime 1 3 "lobby" data []
              (lobby_of_two "note") eq_refl eq_refl) as [Hg _].
  exact Hg.
Defined.

(** A stroke is drawn and queried. *)
Lemma stored_stroke_is_returned_witness :
  let data := JObj [("stroke", JObj [])] in
  let w := lobby_of_two "canvas" in
  let w' := (@canvas_on_message example_runtime 1 "lobby" data w).2 in
  exists events,
    get_canvas_events "lobby" w' = (Done events, w') /\
    last events = Some (convert_event (stored (db w) (default_event "lobby"))).
Proof.
  intros data w w'.
  assert (@canvas_event_of example_runtime data "lobby"
          = Ok (default_event "lobby")) as Hev by (vm_compute; reflexivity).
  assert (length (filter (fun d => ev_room (doc_event d) = "lobby")
                    (canvasevent (db w))) < 500) as Hlen
    by (simpl; lia).
  destruct (@stored_stroke_is_returned example_runtime 1 "lobby" data
              (default_event "lobby") w Hev eq_refl Hlen)
    as (events & Hq & Hl & _).
  exists events. split; [exact Hq | exact Hl].
Defined.

(** A stroke of size 10. *)
Lemma accepted_stroke_size_and_color_witness :
  let data := JObj [("stroke", JObj [("size", JInt 10)])] in
  let ev := {| ev_stroke := {| stroke_color := "#ffffff";
                                stroke_size := 10%float;
                                stroke_points := [] |};
               ev_user_id := None; ev_room := "lobby" |} in
  @canvas_event_of example_runtime data "lobby" = Ok ev /\
  PrimFloat.leb (stroke_size (ev_stroke ev)) 50 = true.
Proof.
  intros data ev.
  assert (@canvas_event_of example_runtime data "lobby" = Ok ev) as Hev
    by (vm_compute; reflexivity).
  split; [exact Hev|].
  destruct (@accepted_stroke_size_and_color example_runtime data "lobby" ev
              Hev) as (_ & Hhi & _).
  exact Hhi.
Defined.

(** A stroke of one point. *)
Lemma accepted_stroke_points_witness :
  let s := [("points", JArr [JObj [("x", JInt 1); ("y", JInt 2)]])] in
  let d := [("stroke", JObj s)] in
  let ev := {| ev_stroke := {| stroke_color := "#ffffff";
                                stroke_size := 2.0;
                                stroke_points :=
                                  [{| pt_x := 1%float; pt_y := 2%float |}] |};
               ev_user_id := None; ev_room := "lobby" |} in
  @canvas_event_of example_runtime (JObj d) "lobby" = Ok ev /\
  exists items,
    JArr [JObj [("x", JInt 1); ("y", JInt 2)]] = JArr items /\
    length (stroke_points (ev_stroke ev)) = length items.
Proof.
  intros s d ev.
  assert (@canvas_event_of example_runtime (JObj d) "lobby" = Ok ev) as Hev
    by (vm_compute; reflexivity).
  split; [exact Hev|].
  destruct (@accepted_stroke_points example_runtime (JObj d) "lobby" ev d s
              (JArr [JObj [("x", JInt 1); ("y", JInt 2)]])
              Hev eq_refl eq_refl eq_refl) as (items & Hi & Hl & _).
  exists items. split; [exact Hi | exact Hl].
Defined.


(** A database named "app", the first variable set and the second set to
    the empty string. *)
Lemma test_database_reports_environment_witness :
  let d := {| db_name := Some "app"; list_collection_names := Ok ["note"] |} in
  let getenv := fun name =>
                  if String.eqb name "DATABASE_URL"
                  then Some "mongodb://db:27017" else Some "" in
  let r := test_database (fun _ => "boom") (Some d) getenv in
  r_database_url r = Some "✅ Set" /\ r_database_name r = Some "❌ Not Set".
Proof.
  intros d getenv r.
  destruct (test_database_reports_environment
              (fun _ => "boom") (Some d) getenv)
    as (_ & Hset & _ & _ & _ & Hempty & _).
  split.
  - apply (Hset "mongodb://db:27017"); [reflexivity | discriminate].
  - apply Hempty. reflexivity.
Defined.

(** A database of twelve collections. *)
Lemma test_database_reports_collections_witness :
  let names := ["a"; "b"; "c"; "d"; "e"; "f"; "g"; "h"; "i"; "j"; "k"; "l"] in
  let d := {| db_name := Some "app"; list_collection_names := Ok names |} in
  r_collections (test_database (fun _ => "boom") (Some d) (fun _ => None))
  = ["a"; "b"; "c"; "d"; "e"; "f"; "g"; "h"; "i"; "j"].
Proof.
  intros names d.
  destruct (test_database_reports_collections
              (fun _ => "boom") (Some d) (fun _ => None))
    as (_ & Hc & _).
  exact (Hc d names eq_refl eq_refl).
Defined.

(** A stroke that gives a color only, and a message in the flat shape of
    the wire schema. *)
Lemma omitted_stroke_fields_take_defaults_witness :
  let s := [("color", JStr "#ff0000")] in
  let d := [("stroke", JObj s); ("user_id", JStr "u1")] in
  let flat := JObj [("color", JStr "#ff0000"); ("points", JArr [])] in
  (exists ev,
      @canvas_event_of example_runtime (JObj d) "lobby" = Ok ev /\
      stroke_points (ev_stroke ev) = [] /\
      stroke_size (ev_stroke ev) = 2.0%float) /\
  (exists e,
      @canvas_event_of example_runtime flat "lobby" = Raise e /\
      db (@canvas_on_message example_runtime 1 "lobby" flat
            (lobby_of_two "canvas")).2
      = db (lobby_of_two "canvas")).
Proof.
  intros s d flat.
  destruct (@omitted_stroke_fields_take_defaults example_runtime
              1 "lobby" (lobby_of_two "canvas")) as [Hdefaults Hreject].
  split.
  - destruct (Hdefaults d s) as (ev & Hev & Hpts & _ & Hsize & _).
    + reflexivity.
    + reflexivity.
    + right. exists "#ff0000". reflexivity.
    + left. reflexivity.
    + right. right. exists "u1". reflexivity.
    + exists ev. split; [exact Hev|]. split; [exact Hpts|].
      apply Hsize. reflexivity.
  - destruct (Hreject flat) as (e & He & Hdb & _).
    + intros (d0 & s0 & Hd0 & Hs0). injection Hd0 as <-.
      vm_compute in Hs0. discriminate.
    + exists e. split; [exact He | exact Hdb].
Defined.

(** A broadcast to a room of three during which one peer goes away and a
    websocket registers in another room. *)
Lemma broadcast_among_other_tasks_witness :
  let w := lobby_of_three "note" in
  let others := [[OtherCloses 2 RuntimeError];
                 [OtherConnects 9 "attic" "note"]] in
  let r := broadcast_live (MUpdate "hi") "lobby" "note" others w in
  exists atts,
    sends (net r.2) = sends (net w) ++ atts /\
    att_to <$> atts = [1; 2; 3].
Proof.
  intros w others r.
  assert (Forall (Forall (leaves_bucket "lobby" "note")) others) as Hothers
    by (constructor;
          [constructor; [exact I | constructor]
          |constructor;
             [constructor; [left; discriminate | constructor]
             |constructor]]).
  destruct (broadcast_among_other_tasks (MUpdate "hi") "lobby" "note"
              others w) as (_ & _ & _ & Hall).
  destruct (Hall Hothers) as (atts & Hsends & Hto & _).
  exists atts. split; [exact Hsends | exact Hto].
Defined.
